(** * go-microserv-test: the HTTP services and what their handlers do

    A shallow embedding of the Go sources:
    - [api-gateway/cmd/main.go]: routes [GET /health] and [GET /];
    - [services/user-service/cmd/main.go]: routes [GET /health] and
      [GET /users], the latter querying PostgreSQL through [database/sql];
    - [services/{order,notification,inventory}-service/cmd/main.go]: one
      registration each, written [router.get];
    - the seed rows of the SQL schema file.

    Handlers are programs in a state-and-panic monad over a [World] that
    holds the database side and the chronological log of what a handler did
    (queries sent, calls on [*sql.Rows], calls of [c.JSON]).  The router is
    gin's [Engine]; gin and [database/sql] are libraries the sources import,
    so their part is kept to the behaviour the sources rely on and is marked
    as such where it is defined. *)

From stdpp Require Import base strings gmap list pretty.
From Stdlib Require Import Ascii ZArith Lia.

Local Open Scope string_scope.
Local Open Scope Z_scope.
Local Open Scope list_scope.

(** ** JSON values, as [encoding/json] produces them *)

#[warnings="-register-all"] Inductive json : Type :=
| JNull
| JNum (n : Z)
| JStr (s : string)
| JArr (items : list json)
| JObj (members : gmap string json).

(** [gin.H] is [map[string]any]; a literal [gin.H{k1: v1, ...}]. *)
Definition H (kvs : list (string * json)) : json := JObj (list_to_map kvs).

(** The member names of an object, and one member. *)
Definition fields (j : json) : gset string :=
  match j with JObj m => dom m | _ => ∅ end.

Definition field (k : string) (j : json) : option json :=
  match j with JObj m => m !! k | _ => None end.

(** [net/http] status codes used by the sources and by gin. *)
Definition StatusOK : Z := 200.
Definition StatusMovedPermanently : Z := 301.
Definition StatusTemporaryRedirect : Z := 307.
Definition StatusNotFound : Z := 404.
Definition StatusMethodNotAllowed : Z := 405.
Definition StatusInternalServerError : Z := 500.

(** ** The user service's data *)

(** [type User struct { ID int `json:"id"`; Email string `json:"email"`;
    Username string `json:"username"` }] *)
Record User := { ID : Z; Email : string; Username : string }.

(** The JSON encoding of a [User]: one member per struct field, named by
    its tag. *)
Definition User_json (u : User) : json :=
  H [("id", JNum (ID u)); ("email", JStr (Email u));
     ("username", JStr (Username u))].

(** A result row as the handler meets it: [rows.Scan(&u.ID, &u.Email,
    &u.Username)] either fills the three fields or returns an error. *)
Inductive row : Type :=
| Scannable (u : User)
| Unscannable (err : string).

(** The one statement the service sends, as syntax; [render] gives the text
    handed to [db.Query]. *)
Record select := {
  sel_columns : list string;
  sel_from : string;
  sel_limit : option nat }.

Definition render (q : select) : string :=
  "SELECT " +:+ String.concat ", " (sel_columns q) +:+ " FROM " +:+ sel_from q
  +:+ match sel_limit q with
      | Some n => " LIMIT " +:+ pretty n
      | None => ""
      end.

(** PostgreSQL's answer to a [select] over the stored rows: [LIMIT n] keeps
    at most the first [n] rows. *)
Definition pg_exec (q : select) (table : list row) : list row :=
  match sel_limit q with
  | Some n => take n table
  | None => table
  end.

(** ** What a handler can do, and the world it does it in *)

Inductive event : Type :=
| EvQuery (sql : string)            (* db.Query(sql) is called *)
| EvNext (nil_receiver : bool)      (* rows.Next() *)
| EvClose (nil_receiver : bool)     (* rows.Close() *)
| EvJSON (code : Z) (body : json)   (* c.JSON(code, body) *)
| EvRedirect (code : Z) (location : string)  (* gin redirects the request *)
| EvServeError (code : Z)           (* gin's own 404 / 405 answer *)
| EvAbort (code : Z).               (* gin's Recovery: c.AbortWithStatus *)

(** - [users_table]: the rows of [user_service.users], in the order the
      server returns them;
    - [conn_script]: what the successive calls of [db.Query] hand back to
      the handler: [Some e] is an error with [err.Error() = e], [None] is
      rows; once the script is used up every call hands back rows.  One
      entry stands for one call: how often [database/sql] tries a
      connection inside a call (it re-issues a statement on
      [driver.ErrBadConn]) is below this level and not modelled;
    - [nil_rows_tolerated]: whether a method call on a nil [*sql.Rows]
      returns (as if there were no rows) instead of panicking on the nil
      dereference; [database/sql] panics, i.e. [false];
    - [log]: everything done so far, oldest first. *)
Record World := {
  users_table : list row;
  conn_script : list (option string);
  nil_rows_tolerated : bool;
  log : list event }.

Definition record (e : event) (w : World) : World :=
  {| users_table := users_table w; conn_script := conn_script w;
     nil_rows_tolerated := nil_rows_tolerated w; log := log w ++ [e] |}.

Definition next_attempt (w : World) : World :=
  {| users_table := users_table w; conn_script := tail (conn_script w);
     nil_rows_tolerated := nil_rows_tolerated w; log := log w |}.

(** A Go call either returns a value or panics. *)
Inductive result (A : Type) : Type :=
| Val (a : A)
| Panic (msg : string).
Arguments Val {A} a.
Arguments Panic {A} msg.

Definition M (A : Type) : Type := World → result A * World.

#[global] Instance M_ret : MRet M := λ A a w, (Val a, w).

#[global] Instance M_bind : MBind M := λ A B f c w,
  match c w with
  | (Val a, w') => f a w'
  | (Panic msg, w') => (Panic msg, w')
  end.

Definition emit (e : event) : M unit := λ w, (Val tt, record e w).

Definition panic {A : Type} (msg : string) : M A := λ w, (Panic msg, w).

(** [defer d] placed before [body]: [d] runs when [body] returns and also
    when it panics; a panic of [d] replaces the pending one. *)
Definition defer {A : Type} (d : M unit) (body : M A) : M A := λ w,
  match body w with
  | (r, w') =>
      match d w' with
      | (Val _, w'') => (r, w'')
      | (Panic msg, w'') => (Panic msg, w'')
      end
  end.

Definition nil_dereference : string :=
  "runtime error: invalid memory address or nil pointer dereference".

(** ** [database/sql], as far as the handler uses it *)

(** [*sql.Rows]: [None] is the nil pointer, [Some pending] a cursor with the
    rows still to be read. *)
Definition Rows : Type := option (list row).

(** [rows, err := db.Query(q)]: one call, and what it hands back.  On an
    error the rows are nil. *)
Definition db_Query (q : select) : M (Rows * option string) := λ w,
  let w1 := record (EvQuery (render q)) w in
  match conn_script w with
  | Some e :: _ => (Val (None, Some e), next_attempt w1)
  | _ => (Val (Some (pg_exec q (users_table w)), None), next_attempt w1)
  end.

(** A method of [*sql.Rows] entered with a nil receiver: it dereferences the
    pointer.  [dflt] is what the call reports where the dereference is
    tolerated. *)
Definition nil_call {A : Type} (dflt : A) : M A := λ w,
  if nil_rows_tolerated w then (Val dflt, w) else (Panic nil_dereference, w).

(** [rows.Close()] *)
Definition rows_Close (rows : Rows) : M unit :=
  match rows with
  | Some _ => emit (EvClose false)
  | None => emit (EvClose true) ;; nil_call tt
  end.

(** [rows.Scan(&u.ID, &u.Email, &u.Username)] on the current row. *)
Definition rows_Scan (r : row) : User + string :=
  match r with
  | Scannable u => inl u
  | Unscannable err => inr err
  end.

(** [for rows.Next() { var u User; if err := rows.Scan(...); err != nil
    { continue }; users = append(users, u) }] over the rows still pending. *)
Fixpoint scan_loop (pending : list row) (users : list User) : M (list User) :=
  match pending with
  | [] => emit (EvNext false) ;; mret users
  | r :: rest =>
      emit (EvNext false) ;;
      match rows_Scan r with
      | inr _ => scan_loop rest users
      | inl u => scan_loop rest (users ++ [u])
      end
  end.

(** The same loop from the handler's [rows] value; on a nil [rows] the first
    [rows.Next()] is a call on the nil pointer. *)
Definition for_rows_Next (rows : Rows) (users : list User) : M (list User) :=
  match rows with
  | Some pending => scan_loop pending users
  | None => emit (EvNext true) ;; nil_call false ;; mret users
  end.

(** ** gin's context *)

Definition HandlerFunc : Type := M unit.

(** [c.JSON(code, obj)] *)
Definition c_JSON (code : Z) (obj : json) : M unit := emit (EvJSON code obj).

(** ** gin's [Engine]

    gin is a library the services import; what follows is the part of
    [gin.Engine] their [main] functions exercise: registration of routes
    with static paths, and [handleHTTPRequest].  Each method tree is kept
    as the list of its (path, handler) pairs in registration order.  Paths
    with parameters ([':'] or ['*']) need gin's radix tree and are left
    out: no route of the repository has one.  [RedirectFixedPath] is off in
    [gin.New()] and its branch of [handleHTTPRequest] is left out too. *)

Definition route : Type := string * string * HandlerFunc.

Record Engine := {
  RedirectTrailingSlash : bool;
  HandleMethodNotAllowed : bool;
  UseRecovery : bool;
  trees : list (string * list (string * HandlerFunc)) }.

(** [gin.New()] *)
Definition New : Engine :=
  {| RedirectTrailingSlash := true; HandleMethodNotAllowed := false;
     UseRecovery := false; trees := [] |}.

(** [gin.Default()]: [New()] with the Logger and Recovery middleware. *)
Definition Default : Engine :=
  {| RedirectTrailingSlash := RedirectTrailingSlash New;
     HandleMethodNotAllowed := HandleMethodNotAllowed New;
     UseRecovery := true; trees := trees New |}.

(** First entry under a key: [engine.trees.get(method)], and the lookup of a
    static path in one tree. *)
Fixpoint assoc {V : Type} (k : string) (l : list (string * V)) : option V :=
  match l with
  | [] => None
  | (k', v) :: l' => if decide (k' = k) then Some v else assoc k l'
  end.

Definition begins_with_slash (path : string) : bool :=
  match path with
  | String c _ => bool_decide (c = "/"%char)
  | EmptyString => false
  end.

Fixpoint has_wildcard (path : string) : bool :=
  match path with
  | EmptyString => false
  | String c rest =>
      bool_decide (c = ":"%char) || bool_decide (c = "*"%char) || has_wildcard rest
  end.

(** The segments of a path: the pieces between its slashes, [cur] being the
    piece read so far. *)
Fixpoint segments (path cur : string) : list string :=
  match path with
  | EmptyString => [cur]
  | String c rest =>
      if decide (c = "/"%char) then cur :: segments rest ""
      else segments rest (cur +:+ String c "")
  end.

Fixpoint plain_segments (segs : list string) : bool :=
  match segs with
  | [] => true
  | [last] => bool_decide (last ≠ "." ∧ last ≠ "..")
  | seg :: segs' =>
      bool_decide (seg ≠ "" ∧ seg ≠ "." ∧ seg ≠ "..") && plain_segments segs'
  end.

(** A path that [RouterGroup.calculateAbsolutePath] leaves as written when
    joining it to the base path ["/"]: rooted, without empty, [.] or [..]
    segments (a final slash is kept). *)
Definition absolute_as_written (path : string) : bool :=
  match segments path "" with
  | "" :: segs => plain_segments segs
  | _ => false
  end.

(** Adding one path to the tree of [method]; [None] is gin's panic
    "handlers are already registered for path". *)
Fixpoint tree_add (method path : string) (h : HandlerFunc)
    (ts : list (string * list (string * HandlerFunc)))
    : option (list (string * list (string * HandlerFunc))) :=
  match ts with
  | [] => Some [(method, [(path, h)])]
  | (m, routes) :: ts' =>
      if decide (m = method) then
        match assoc path routes with
        | Some _ => None
        | None => Some ((m, routes ++ [(path, h)]) :: ts')
        end
      else ts'' ← tree_add method path h ts'; Some ((m, routes) :: ts'')
  end.

(** [engine.addRoute(method, path, handlers)]; [None] when gin panics, or
    when the path is outside this model (it has a parameter, or is not
    registered as written). *)
Definition addRoute (method path : string) (h : HandlerFunc) (e : Engine)
    : option Engine :=
  if begins_with_slash path && bool_decide (method ≠ "")
     && negb (has_wildcard path) && absolute_as_written path
  then ts ← tree_add method path h (trees e);
       Some {| RedirectTrailingSlash := RedirectTrailingSlash e;
               HandleMethodNotAllowed := HandleMethodNotAllowed e;
               UseRecovery := UseRecovery e; trees := ts |}
  else None.

Fixpoint add_routes (rs : list route) (e : Engine) : option Engine :=
  match rs with
  | [] => Some e
  | (m, p, h) :: rs' => e' ← addRoute m p h e; add_routes rs' e'
  end.

(** [path] without its final ['/'], if it ends in one. *)
Fixpoint trim_slash (path : string) : option string :=
  match path with
  | EmptyString => None
  | String c EmptyString =>
      if decide (c = "/"%char) then Some EmptyString else None
  | String c rest => String c <$> trim_slash rest
  end.

(** The trailing-slash recommendation of [node.getValue]: the path was not
    found, but it is found with one ['/'] more or one less.  This is what
    gin's radix tree recommends on the trees of this repository
    ([/health] and [/]; [/health] and [/users]); on other route sets the
    walk of the radix tree can end with a recommendation in further cases. *)
Definition tsr (routes : list (string * HandlerFunc)) (path : string) : bool :=
  bool_decide (is_Some (assoc (path +:+ "/") routes))
  || match trim_slash path with
     | Some shorter => bool_decide (is_Some (assoc shorter routes))
     | None => false
     end.

(** [redirectTrailingSlash]: where the request is sent. *)
Definition trailing_slash_target (path : string) : string :=
  match trim_slash path with
  | Some shorter => if decide (shorter = "") then path +:+ "/" else shorter
  | None => path +:+ "/"
  end.

(** The methods, other than the request's, under which the path is
    registered. *)
Definition allowed (e : Engine) (method path : string) : list string :=
  (filter (λ t, t.1 ≠ method ∧ is_Some (assoc path t.2)) (trees e)).*1.

Inductive resolution : Type :=
| Found (h : HandlerFunc)
| Redirect (code : Z) (location : string)
| MethodNotAllowed
| NotFound.

(** What the tree of the request's own method yields, if anything. *)
Definition own_tree (e : Engine) (method path : string) : option resolution :=
  routes ← assoc method (trees e);
  match assoc path routes with
  | Some h => Some (Found h)
  | None =>
      if bool_decide (method ≠ "CONNECT") && bool_decide (path ≠ "/")
         && tsr routes path && RedirectTrailingSlash e
      then Some (Redirect (if decide (method = "GET")
                           then StatusMovedPermanently
                           else StatusTemporaryRedirect)
                          (trailing_slash_target path))
      else None
  end.

(** The decision taken by [engine.handleHTTPRequest]. *)
Definition resolve (e : Engine) (method path : string) : resolution :=
  match own_tree e method path with
  | Some r => r
  | None =>
      if HandleMethodNotAllowed e && bool_decide (allowed e method path ≠ [])
      then MethodNotAllowed
      else NotFound
  end.

Definition handleHTTPRequest (e : Engine) (method path : string) : M unit :=
  match resolve e method path with
  | Found h => h
  | Redirect code location => emit (EvRedirect code location)
  | MethodNotAllowed => emit (EvServeError StatusMethodNotAllowed)
  | NotFound => emit (EvServeError StatusNotFound)
  end.

(** gin's Recovery middleware: a panic of the handler is caught and the
    request aborted with status 500. *)
Definition Recovery (next : M unit) : M unit := λ w,
  match next w with
  | (Val _, w') => (Val tt, w')
  | (Panic _, w') => emit (EvAbort StatusInternalServerError) w'
  end.

Definition ServeHTTP (e : Engine) (req : string * string) : M unit :=
  if UseRecovery e then Recovery (handleHTTPRequest e req.1 req.2)
  else handleHTTPRequest e req.1 req.2.

(** Requests served one after the other.  A panic ends its own request
    only: Recovery catches it, and [net/http] would otherwise. *)
Fixpoint serve (e : Engine) (reqs : list (string * string)) (w : World) : World :=
  match reqs with
  | [] => w
  | req :: reqs' => serve e reqs' (ServeHTTP e req w).2
  end.

(** ** Registration statements of a [main]

    A statement [router.sel(path, handler)].  The selectors that exist on
    [*gin.Engine] for this call shape are the seven verbs and [Any]; with
    any other selector the package does not compile. *)
Record registration := {
  selector : string;
  relativePath : string;
  handler : HandlerFunc }.

Definition verbs : list string :=
  ["GET"; "POST"; "DELETE"; "PATCH"; "PUT"; "OPTIONS"; "HEAD"].

Definition anyMethods : list string :=
  ["GET"; "POST"; "PUT"; "PATCH"; "HEAD"; "OPTIONS"; "DELETE"; "CONNECT"; "TRACE"].

Definition valid_selector (sel : string) : bool :=
  bool_decide (sel ∈ verbs) || bool_decide (sel = "Any").

Definition routes_of (r : registration) : option (list route) :=
  if bool_decide (selector r ∈ verbs)
  then Some [(selector r, relativePath r, handler r)]
  else if bool_decide (selector r = "Any")
  then Some ((λ m, (m, relativePath r, handler r)) <$> anyMethods)
  else None.

(** The router a [main] ends up with; [None] when a statement does not
    compile or gin panics during registration. *)
Fixpoint register_all (regs : list registration) (e : Engine) : option Engine :=
  match regs with
  | [] => Some e
  | r :: regs' =>
      rs ← routes_of r; e' ← add_routes rs e; register_all regs' e'
  end.

(** ** The handlers of the sources *)

(** [c.JSON(http.StatusOK, gin.H{"status": "healthy", "service": name})],
    the body of every [/health] handler. *)
Definition health_body (service : string) : json :=
  H [("status", JStr "healthy"); ("service", JStr service)].

Definition health_handler (service : string) : HandlerFunc :=
  c_JSON StatusOK (health_body service).

(** api-gateway, [GET /]. *)
Definition root_handler : HandlerFunc :=
  c_JSON StatusOK (H [("message", JStr "Hello! - API Gateway")]).

(** user-service, [GET /users]: the statement sent. *)
Definition users_select : select :=
  {| sel_columns := ["id"; "email"; "username"];
     sel_from := "user_service.users";
     sel_limit := Some 10%nat |}.

Definition query : string := render users_select.

(** user-service, [GET /users].  The [if err != nil] block has no [return]:
    whatever [err] is, control reaches [defer rows.Close()] and the loop. *)
Definition users_handler : HandlerFunc :=
  '(rows, err) ← db_Query users_select;
  match err with
  | Some e => c_JSON StatusInternalServerError (H [("error", JStr e)])
  | None => mret tt
  end ;;
  defer (rows_Close rows)
    (users ← for_rows_Next rows [];
     c_JSON StatusOK (H [("users", JArr (User_json <$> users))])).

(** ** The five [main] functions *)

Definition reg (sel path : string) (h : HandlerFunc) : registration :=
  {| selector := sel; relativePath := path; handler := h |}.

Definition gateway_registrations : list registration :=
  [reg "GET" "/health" (health_handler "api-gateway");
   reg "GET" "/" root_handler].

Definition user_registrations : list registration :=
  [reg "GET" "/health" (health_handler "user-service");
   reg "GET" "/users" users_handler].

Definition order_registrations : list registration :=
  [reg "get" "/health" (health_handler "order-service")].

Definition notification_registrations : list registration :=
  [reg "get" "/health" (health_handler "notification-service")].

Definition inventory_registrations : list registration :=
  [reg "get" "/health" (health_handler "inventory-service")].

Definition all_registrations : list registration :=
  gateway_registrations ++ user_registrations ++ order_registrations
  ++ notification_registrations ++ inventory_registrations.

(** The routers of the two services whose [main] compiles. *)
Definition gateway : Engine :=
  default Default (register_all gateway_registrations Default).

Definition user_service : Engine :=
  default Default (register_all user_registrations Default).

(** The rows inserted by the schema file. *)
Definition seed_users : list row :=
  [Scannable {| ID := 1; Email := "john.doe@example.com"; Username := "johndoe" |};
   Scannable {| ID := 2; Email := "jane.doe@example.com"; Username := "janedoe" |}].

(** ** Reading a log *)

Definition is_attempt (e : event) : bool :=
  match e with EvQuery _ => true | _ => false end.

(** How many times [db.Query] was called (calls, not the tries of a
    connection [database/sql] makes inside a call). *)
Definition attempts (w : World) : nat := length (filter is_attempt (log w)).

(** The [c.JSON] calls, in order. *)
Definition json_of (e : event) : option (Z * json) :=
  match e with EvJSON code body => Some (code, body) | _ => None end.

Definition responses (w : World) : list (Z * json) := omap json_of (log w).

Definition world (table : list row) (script : list (option string))
    (tolerated : bool) : World :=
  {| users_table := table; conn_script := script;
     nil_rows_tolerated := tolerated; log := [] |}.

(** [evs] appended to the log, the rest of the world unchanged. *)
Definition extend (evs : list event) (w : World) : World :=
  {| users_table := users_table w; conn_script := conn_script w;
     nil_rows_tolerated := nil_rows_tolerated w; log := log w ++ evs |}.

(** What serving one request added to the log. *)
Definition answer (e : Engine) (req : string * string) (w : World) : list event :=
  drop (length (log w)) (log (ServeHTTP e req w).2).

(** The users the loop keeps: those of the rows that scan, in order. *)
Definition scanned (rows : list row) : list User :=
  omap (λ r, match rows_Scan r with inl u => Some u | inr _ => None end) rows.

(** The error the next call of [db.Query] will hand back, if any. *)
Definition next_failure (w : World) : option string :=
  match conn_script w with
  | Some e :: _ => Some e
  | _ => None
  end.

(** A placeholder health check: whatever the world, the handler does
    nothing but answer 200 with [{status: healthy, service: name}]. *)
Definition placeholder_health_check (h : HandlerFunc) : Prop :=
  ∃ service, ∀ w,
    h w = (Val tt, extend [EvJSON StatusOK (health_body service)] w).

(** The routes a list of statements registers. *)
Definition registered (regs : list registration) : list route :=
  regs ≫= λ r, default [] (routes_of r).

(** The handler of the tree of [method] for [path]. *)
Definition tree_route (ts : list (string * list (string * HandlerFunc)))
    (method path : string) : option HandlerFunc :=
  assoc method ts ≫= assoc path.

(** ** The statements of the specification, as predicates on this code *)

(** The form section 6 of the specification gives for the health answer:
    [{status: healthy|degraded|unhealthy, endpoints: [{name, state,
    lastSuccess, failureCount}]}]. *)
Definition health_statuses : list string := ["healthy"; "degraded"; "unhealthy"].

Definition endpoint_fields : gset string :=
  {["name"; "state"; "lastSuccess"; "failureCount"]}.

Definition aggregated_health_form (j : json) : Prop :=
  (∃ s, field "status" j = Some (JStr s) ∧ s ∈ health_statuses)
  ∧ (∃ eps, field "endpoints" j = Some (JArr eps)
            ∧ ∀ ep, ep ∈ eps → fields ep = endpoint_fields).

(** The path is registered, but not under the request's method. *)
Definition method_mismatch (e : Engine) (method path : string) : Prop :=
  tree_route (trees e) method path = None ∧ allowed e method path ≠ [].

(** The statements written with a selector that does not exist. *)
Definition invalid (regs : list registration) : list registration :=
  filter (λ r, ¬ valid_selector (selector r)) regs.

Definition health_request : string * string := ("GET", "/health").
Definition users_request : string * string := ("GET", "/users").

(** A circuit breaker with threshold [K] at work on [GET /users]: after [K]
    requests, request [K + 1] is answered without calling [db.Query]. *)
Definition fails_fast_after (K : nat) (w : World) : Prop :=
  let wK := serve user_service (replicate K users_request) w in
  attempts (serve user_service [users_request] wK) = attempts wK.

(** A retry at work on [GET /users]: the request calls [db.Query] more
    than once. *)
Definition retried (w : World) : Prop :=
  (attempts w + 1 < attempts (serve user_service [users_request] w))%nat.

(** Two worlds to run the user service in: one where four calls of
    [db.Query] in a row hand back an error, and one where the first call
    hands back an error and the next would hand back rows. *)
Definition connection_reset : string := "connection reset by peer".

Definition broken_connection : World :=
  world seed_users (replicate 4 (Some connection_reset)) false.

Definition flaky_connection : World :=
  world seed_users [Some connection_reset; None] false.

(** ** What the client receives

    The test reads the answer from an [httptest.ResponseRecorder]: its [Code]
    is the status of the first header written (200 if none was), its [Body]
    everything written after it. *)

Inductive chunk : Type :=
| Doc (j : json)      (* the bytes of one JSON document *)
| Text.               (* bytes that are no JSON document: gin's own bodies *)

Definition status_of (e : event) : option Z :=
  match e with
  | EvJSON code _ | EvRedirect code _ | EvServeError code | EvAbort code => Some code
  | EvQuery _ | EvNext _ | EvClose _ => None
  end.

Definition body_of (e : event) : list chunk :=
  match e with
  | EvJSON _ j => [Doc j]
  | EvRedirect _ _ | EvServeError _ => [Text]
  | EvAbort _ | EvQuery _ | EvNext _ | EvClose _ => []
  end.

Definition recorded_Code (evs : list event) : Z :=
  default StatusOK (head (omap status_of evs)).

Definition recorded_Body (evs : list event) : list chunk := evs ≫= body_of.

(** ** [json.Unmarshal] into [map[string][]map[string]any]

    [encoding/json] is a library; this is its decoding of a body into the
    test's [response] variable.  A body that is not exactly one document is
    a syntax error and leaves the map nil.  In a document, [null] leaves a
    map or slice nil; a value of the wrong kind is skipped, leaving the zero
    value, and the call reports a type error. *)

Inductive json_error : Type := SyntaxError | UnmarshalTypeError.

Definition fits_map (j : json) : bool :=
  match j with JObj _ | JNull => true | _ => false end.

Definition as_map (j : json) : gmap string json :=
  match j with JObj m => m | _ => ∅ end.

Definition fits_slice (j : json) : bool :=
  match j with
  | JArr items => forallb fits_map items
  | JNull => true
  | _ => false
  end.

Definition as_slice (j : json) : list (gmap string json) :=
  match j with JArr items => as_map <$> items | _ => [] end.

Definition Unmarshal (body : list chunk)
    : option json_error * gmap string (list (gmap string json)) :=
  match body with
  | [Doc (JObj m)] =>
      (if forallb (λ kv, fits_slice kv.2) (map_to_list m) then None
       else Some UnmarshalTypeError,
       as_slice <$> m)
  | [Doc JNull] => (None, ∅)
  | [Doc _] => (Some UnmarshalTypeError, ∅)
  | _ => (Some SyntaxError, ∅)
  end.

(** ** [TestUsersEndpointIntegration] *)

(** The calls of [t.Errorf] and [t.Error], with what they report. *)
Inductive failure : Type :=
| DatabaseNotAvailable (err : string)
| UnexpectedStatus (code : Z)
| ParseFailed (err : json_error)
| NoUsers
| MissingFields.

(** [v == nil] for a [v] read from a [map[string]any]: the key is missing,
    or its value is JSON [null]. *)
Definition is_nil (v : option json) : bool :=
  match v with
  | None | Some JNull => true
  | Some _ => false
  end.

Definition index_out_of_range : string :=
  "runtime error: index out of range [0] with length 0".

(** The second half of the test, from [if w.Code != http.StatusOK] on.  None
    of the [t.Error] calls ends the test; [users[0]] is evaluated whatever
    [len(users)] is. *)
Definition response_checks (code : Z) (body : list chunk)
    : list failure * result unit :=
  let status := if decide (code ≠ StatusOK) then [UnexpectedStatus code] else [] in
  let '(err, response) := Unmarshal body in
  let parse := match err with Some e => [ParseFailed e] | None => [] end in
  let users := default [] (response !! "users") in
  let count := if decide (length users = 0%nat) then [NoUsers] else [] in
  match users with
  | [] => (status ++ parse ++ count, Panic index_out_of_range)
  | first :: _ =>
      (status ++ parse ++ count
       ++ (if is_nil (first !! "id") || is_nil (first !! "email")
              || is_nil (first !! "username")
           then [MissingFields] else []),
       Val tt)
  end.

(** The test.  [database.Connect] and [setupRouter] are not in the sources at
    hand: the error of the first ([connect]) and the router the second
    returns are arguments; [w] is the world the database handle leads to. *)
Definition TestUsersEndpointIntegration (connect : option string)
    (setupRouter : Engine) (w : World) : list failure * result unit :=
  match connect with
  | Some err => ([DatabaseNotAvailable err], Val tt)
  | None =>
      match (ServeHTTP setupRouter users_request w).1 with
      | Panic msg => ([], Panic msg)
      | Val _ =>
          response_checks
            (recorded_Code (answer setupRouter users_request w))
            (recorded_Body (answer setupRouter users_request w))
      end
  end.

(** How many of the requests are [GET /users]. *)
Definition users_requests (reqs : list (string * string)) : nat :=
  length (filter (λ req, req = users_request) reqs).

(** ** The schema file

    [user_service.users] as PostgreSQL keeps it.  [id], [email], [username]
    and [password_hash] are NOT NULL; [id], [email] and [username] are each
    unique; [id] defaults to the next value of the table's sequence and
    [created_at] to [NOW()]. *)
Record account := {
  acc_id : Z;
  acc_email : string;
  acc_username : string;
  acc_password_hash : string;
  acc_created_at : option Z;
  acc_first_name : option string;
  acc_last_name : option string }.

(** The table, when it exists, with the next value of its [id] sequence. *)
Record users_relation := {
  stored : list account;
  next_id : Z }.

Definition Postgres : Type := option users_relation.

(** One tuple of the [VALUES] list: [(email, username, password_hash,
    first_name, last_name)]. *)
Record proposal := {
  p_email : string;
  p_username : string;
  p_password_hash : string;
  p_first_name : string;
  p_last_name : string }.

Definition seed_proposals : list proposal :=
  [{| p_email := "john.doe@example.com"; p_username := "johndoe";
      p_password_hash := "hashed_password_1";
      p_first_name := "John"; p_last_name := "Doe" |};
   {| p_email := "jane.doe@example.com"; p_username := "janedoe";
      p_password_hash := "hashed_password_2";
      p_first_name := "Jane"; p_last_name := "Doe" |}].

(** [CREATE TABLE IF NOT EXISTS user_service.users (...)]: an existing table
    is left alone; a new one is empty, its sequence at 1. *)
Definition create_users_if_not_exists (db : Postgres) : users_relation :=
  match db with
  | Some rel => rel
  | None => {| stored := []; next_id := 1 |}
  end.

Definition new_account (id : Z) (now : Z) (p : proposal) : account :=
  {| acc_id := id; acc_email := p_email p; acc_username := p_username p;
     acc_password_hash := p_password_hash p; acc_created_at := Some now;
     acc_first_name := Some (p_first_name p);
     acc_last_name := Some (p_last_name p) |}.

(** [SERIAL] is a 4-byte integer: the sequence ends at this value. *)
Definition serial_max : Z := 2147483647.

(** The tuples of [INSERT ... ON CONFLICT (email) DO NOTHING], one after the
    other.  Each first takes the next value of the sequence; past the end
    of the sequence that fails ([None]) and the sequence stays where it
    is.  A tuple whose email is taken is dropped; otherwise a taken [id] or
    [username] is a unique violation ([None]).  A failure aborts the
    statement. *)
Fixpoint insert_do_nothing (ps : list proposal) (now : Z)
    (rows : list account) (seq : Z) : option (list account) * Z :=
  match ps with
  | [] => (Some rows, seq)
  | p :: ps' =>
      if bool_decide (serial_max < seq) then (None, seq)
      else if bool_decide (p_email p ∈ acc_email <$> rows)
      then insert_do_nothing ps' now rows (seq + 1)
      else if bool_decide (seq ∈ acc_id <$> rows)
              || bool_decide (p_username p ∈ acc_username <$> rows)
      then (None, seq + 1)
      else insert_do_nothing ps' now (rows ++ [new_account seq now p]) (seq + 1)
  end.

(** The statement as a whole: when it is aborted the rows are those from
    before it; the values taken from the sequence are not given back. *)
Definition insert_seed (now : Z) (rel : users_relation) : bool * users_relation :=
  match insert_do_nothing seed_proposals now (stored rel) (next_id rel) with
  | (Some rows, seq) => (true, {| stored := rows; next_id := seq |})
  | (None, seq) => (false, {| stored := stored rel; next_id := seq |})
  end.

(** The schema file, run at time [now]: the table is created if missing,
    then seeded.  The flag tells whether the INSERT went through. *)
Definition init_script (now : Z) (db : Postgres) : bool * users_relation :=
  insert_seed now (create_users_if_not_exists db).

(** [SELECT id, email, username] of a stored row, as the handler scans it:
    the three columns are NOT NULL, so the scan fills the three fields. *)
Definition selected (a : account) : row :=
  Scannable {| ID := acc_id a; Email := acc_email a; Username := acc_username a |}.

(** The world of a user service connected to this database. *)
Definition world_of (rel : users_relation) (script : list (option string))
    (tolerated : bool) : World :=
  world (selected <$> stored rel) script tolerated.

(** The three uniqueness constraints of the table. *)
Definition constraints_hold (rows : list account) : Prop :=
  NoDup (acc_id <$> rows) ∧ NoDup (acc_email <$> rows)
  ∧ NoDup (acc_username <$> rows).

(** Membership in an explicit list. *)
Local Ltac in_list :=
  repeat first [apply list_elem_of_here | apply list_elem_of_further].

(** * Properties *)

Example query_text :
  query = "SELECT id, email, username FROM user_service.users LIMIT 10".
Proof. reflexivity. Qed.

Example gateway_compiles : register_all gateway_registrations Default = Some gateway.
Proof. reflexivity. Qed.

Example user_service_compiles :
  register_all user_registrations Default = Some user_service.
Proof. reflexivity. Qed.

Example unclean_path_outside_model :
  addRoute "GET" "/a//b" root_handler Default = None
  ∧ addRoute "GET" "/a/../b" root_handler Default = None
  ∧ addRoute "GET" "/users/:id" root_handler Default = None
  ∧ is_Some (addRoute "GET" "/a/b/" root_handler Default).
Proof. repeat split; by eexists. Qed.

(** ** Worlds and logs *)

Lemma record_extend e w : record e w = extend [e] w.
Proof. reflexivity. Qed.

Lemma extend_extend a b w : extend b (extend a w) = extend (a ++ b) w.
Proof. unfold extend; simpl. by rewrite (assoc_L (++)). Qed.

Lemma extend_nil w : extend [] w = w.
Proof. destruct w; unfold extend; simpl. by rewrite app_nil_r. Qed.

Lemma next_attempt_extend evs w :
  next_attempt (extend evs w) = extend evs (next_attempt w).
Proof. reflexivity. Qed.

Lemma attempts_extend evs w :
  attempts (extend evs w) = (attempts w + length (filter is_attempt evs))%nat.
Proof. unfold attempts; simpl. by rewrite filter_app, length_app. Qed.

Lemma responses_extend evs w :
  responses (extend evs w) = responses w ++ omap json_of evs.
Proof. unfold responses; simpl. apply omap_app. Qed.

Lemma drop_log_extend evs w : drop (length (log w)) (log (extend evs w)) = evs.
Proof. simpl. by rewrite drop_app_length. Qed.

Lemma filter_attempt_replicate_next n b :
  filter is_attempt (replicate n (EvNext b)) = [].
Proof.
  induction n as [|n IH]; [done|].
  simpl. rewrite filter_cons_False; [exact IH | simpl; tauto].
Qed.

Lemma omap_json_replicate_next n b :
  omap json_of (replicate n (EvNext b)) = [].
Proof. induction n as [|n IH]; [done | by simpl]. Qed.

(** ** The scan loop *)

(** The loop calls [rows.Next()] once per pending row and once more, keeps
    the users of the rows that scan, and does nothing else. *)
Lemma scan_loop_run pending : ∀ users w,
  scan_loop pending users w =
    (Val (users ++ scanned pending),
     extend (replicate (S (length pending)) (EvNext false)) w).
Proof.
  induction pending as [|r rest IH]; intros users w.
  - simpl. unfold scanned; simpl. by rewrite app_nil_r.
  - change (scan_loop (r :: rest) users w)
      with (match rows_Scan r with
            | inr _ => scan_loop rest users
            | inl u => scan_loop rest (users ++ [u])
            end (record (EvNext false) w)).
    rewrite record_extend.
    destruct r as [u|err]; unfold rows_Scan; cbv iota beta; rewrite IH, extend_extend.
    + unfold scanned; simpl. by rewrite <- (assoc_L (++)).
    + done.
Qed.

Lemma scanned_length rows : (length (scanned rows) ≤ length rows)%nat.
Proof.
  unfold scanned.
  induction rows as [|[u|err] rows IH]; cbn in *; lia.
Qed.

(** ** One run of the [GET /users] handler *)

(** The query failed: the 500 answer is written, and the handler goes on
    to [rows.Next()] and the deferred [rows.Close()] with [rows] nil. *)
Lemma users_handler_failure w e rest :
  conn_script w = Some e :: rest →
  users_handler w =
    ((if nil_rows_tolerated w then Val tt else Panic nil_dereference),
     next_attempt
       (extend ([EvQuery query;
                 EvJSON StatusInternalServerError (H [("error", JStr e)]);
                 EvNext true]
                ++ (if nil_rows_tolerated w
                    then [EvJSON StatusOK (H [("users", JArr [])])] else [])
                ++ [EvClose true]) w)).
Proof.
  destruct w as [tbl script tol lg]; simpl; intros ->.
  destruct tol;
    cbv [users_handler mbind M_bind mret M_ret defer for_rows_Next rows_Close
         nil_call emit c_JSON db_Query record next_attempt extend];
    simpl; by rewrite <- !(assoc_L (++)).
Qed.

(** The query went through: the rows are read, one answer is written, the
    rows are closed. *)
Lemma users_handler_success w :
  next_failure w = None →
  users_handler w =
    (Val tt,
     next_attempt
       (extend ([EvQuery query]
                ++ replicate (S (length (pg_exec users_select (users_table w))))
                     (EvNext false)
                ++ [EvJSON StatusOK
                      (H [("users",
                           JArr (User_json <$>
                                 scanned (pg_exec users_select (users_table w))))]);
                    EvClose false]) w)).
Proof.
  intros Hok.
  assert (Hq : db_Query users_select w =
               (Val (Some (pg_exec users_select (users_table w)), None),
                next_attempt (extend [EvQuery query] w))).
  { unfold db_Query, next_failure in *.
    destruct (conn_script w) as [|[e|] rest]; done. }
  unfold users_handler, mbind at 1, M_bind at 1. rewrite Hq.
  unfold mbind, M_bind, mret, M_ret, defer, for_rows_Next; simpl.
  rewrite scan_loop_run; simpl.
  unfold c_JSON, emit, rows_Close, emit. rewrite !record_extend.
  rewrite !next_attempt_extend, !extend_extend. reflexivity.
Qed.

(** ** Serving the routes of the two routers *)

Lemma gateway_serves_health w :
  ServeHTTP gateway health_request w =
    (Val tt, extend [EvJSON StatusOK (health_body "api-gateway")] w).
Proof. reflexivity. Qed.

Lemma user_service_serves_users w :
  ServeHTTP user_service users_request w = Recovery users_handler w.
Proof. reflexivity. Qed.

(** Whatever the query does, serving [GET /users] calls [db.Query] once
    and uses up one entry of the script. *)
Lemma attempts_next_attempt w : attempts (next_attempt w) = attempts w.
Proof. reflexivity. Qed.

Lemma serve_users_once w :
  let w' := (ServeHTTP user_service users_request w).2 in
  attempts w' = S (attempts w) ∧ conn_script w' = tail (conn_script w).
Proof.
  rewrite user_service_serves_users. unfold Recovery.
  destruct (next_failure w) as [e|] eqn:Hf.
  - assert (Hs : ∃ rest, conn_script w = Some e :: rest).
    { unfold next_failure in Hf.
      destruct (conn_script w) as [|[e'|] rest]; naive_solver. }
    destruct Hs as [rest Hs].
    rewrite (users_handler_failure w e rest Hs).
    destruct (nil_rows_tolerated w); cbv beta iota zeta;
      (split; [|reflexivity]); unfold emit; rewrite ?record_extend;
      cbn [snd]; rewrite ?next_attempt_extend, ?extend_extend, attempts_extend,
        attempts_next_attempt; simpl; lia.
  - rewrite (users_handler_success w Hf). cbv beta iota zeta.
    split; [|reflexivity]. cbn [snd].
    rewrite attempts_next_attempt, attempts_extend.
    rewrite !filter_app, filter_attempt_replicate_next. simpl. lia.
Qed.

(** ** Registration and lookup *)

Lemma assoc_snoc {V : Type} (k k' : string) (v : V) (l : list (string * V)) :
  assoc k (l ++ [(k', v)]) =
    match assoc k l with
    | Some x => Some x
    | None => if decide (k' = k) then Some v else None
    end.
Proof.
  induction l as [|[k0 v0] l IH]; simpl; [done|].
  by destruct (decide (k0 = k)).
Qed.

(** A successful [tree_add] means the route was free; afterwards it is the
    only lookup that changed. *)
Lemma tree_add_route method path h ts : ∀ ts',
  tree_add method path h ts = Some ts' →
  tree_route ts method path = None
  ∧ ∀ m p, tree_route ts' m p =
             if decide (m = method ∧ p = path) then Some h
             else tree_route ts m p.
Proof.
  induction ts as [|[m0 routes] ts IH]; intros ts' Hadd; simpl in Hadd.
  - inversion Hadd; subst; clear Hadd. split; [done|].
    intros m p. unfold tree_route; simpl.
    destruct (decide (method = m)) as [->|Hm]; simpl.
    + destruct (decide (path = p)) as [->|Hp].
      * by rewrite decide_True.
      * rewrite decide_False; [done | intros [??]; congruence].
    + rewrite decide_False; [done | intros [??]; congruence].
  - destruct (decide (m0 = method)) as [->|Hm0].
    + destruct (assoc path routes) eqn:Hfree; [done|].
      inversion Hadd; subst; clear Hadd.
      unfold tree_route; simpl. rewrite decide_True by done. simpl.
      split; [done|]. intros m p.
      destruct (decide (method = m)) as [->|Hm]; simpl.
      * rewrite assoc_snoc.
        destruct (decide (path = p)) as [->|Hp].
        -- by rewrite Hfree, decide_True.
        -- rewrite (decide_False (P := m = m ∧ p = path)) by (intros [??]; congruence).
           by destruct (assoc p routes).
      * rewrite decide_False; [done | intros [??]; congruence].
    + destruct (tree_add method path h ts) as [ts''|] eqn:Hrec; [|done].
      simpl in Hadd. inversion Hadd; subst; clear Hadd.
      destruct (IH ts'' eq_refl) as [Hfree Hrest].
      unfold tree_route in *; simpl. rewrite decide_False by done.
      split; [done|]. intros m p.
      destruct (decide (m0 = m)) as [->|Hm]; simpl.
      * rewrite decide_False; [done | intros [??]; congruence].
      * apply Hrest.
Qed.

Lemma addRoute_route method path h e e' :
  addRoute method path h e = Some e' →
  HandleMethodNotAllowed e' = HandleMethodNotAllowed e
  ∧ tree_route (trees e) method path = None
  ∧ ∀ m p, tree_route (trees e') m p =
             if decide (m = method ∧ p = path) then Some h
             else tree_route (trees e) m p.
Proof.
  unfold addRoute. destruct (_ && _ && _); [|done].
  destruct (tree_add method path h (trees e)) as [ts|] eqn:Hadd; [|done].
  simpl. intros [= <-]. simpl.
  destruct (tree_add_route _ _ _ _ _ Hadd) as [Hfree Hrest]. done.
Qed.

(** After a run of registrations that went through: the flags are those of
    the engine it started from, every route registered is found, and
    nothing else is. *)
Lemma add_routes_route rs : ∀ e e',
  add_routes rs e = Some e' →
  HandleMethodNotAllowed e' = HandleMethodNotAllowed e
  ∧ (∀ m p h, tree_route (trees e) m p = Some h →
              tree_route (trees e') m p = Some h)
  ∧ (∀ m p h, (m, p, h) ∈ rs → tree_route (trees e') m p = Some h)
  ∧ (∀ m p h, tree_route (trees e') m p = Some h →
              tree_route (trees e) m p = Some h ∨ (m, p, h) ∈ rs).
Proof.
  induction rs as [|[[m0 p0] h0] rs IH]; intros e e' Hadd; simpl in Hadd.
  - inversion Hadd; subst. repeat split; try done.
    + intros m p h Hin. by apply elem_of_nil in Hin.
    + intros m p h Hr. by left.
  - destruct (addRoute m0 p0 h0 e) as [e1|] eqn:H1; [|done]. simpl in Hadd.
    destruct (addRoute_route _ _ _ _ _ H1) as (Hflag1 & Hfree & Hstep).
    destruct (IH _ _ Hadd) as (Hflag & Hkeep & Hnew & Honly).
    split; [congruence|]. split; [|split].
    + intros m p h Hr. apply Hkeep. rewrite Hstep.
      destruct (decide (m = m0 ∧ p = p0)) as [[-> ->]|]; [congruence | done].
    + intros m p h Hin. apply elem_of_cons in Hin as [[= -> -> ->]|Hin].
      * apply Hkeep. rewrite Hstep. by rewrite decide_True.
      * by apply Hnew.
    + intros m p h Hr. destruct (Honly _ _ _ Hr) as [Hr1|Hin].
      * rewrite Hstep in Hr1.
        destruct (decide (m = m0 ∧ p = p0)) as [[-> ->]|].
        -- right. inversion Hr1; subst. apply elem_of_cons. by left.
        -- by left.
      * right. apply elem_of_cons. by right.
Qed.

Lemma register_all_route regs : ∀ e e',
  register_all regs e = Some e' →
  HandleMethodNotAllowed e' = HandleMethodNotAllowed e
  ∧ (∀ m p h, tree_route (trees e) m p = Some h →
              tree_route (trees e') m p = Some h)
  ∧ (∀ m p h, (m, p, h) ∈ registered regs →
              tree_route (trees e') m p = Some h)
  ∧ (∀ m p h, tree_route (trees e') m p = Some h →
              tree_route (trees e) m p = Some h ∨ (m, p, h) ∈ registered regs).
Proof.
  induction regs as [|r regs IH]; intros e e' Hreg; simpl in Hreg.
  - inversion Hreg; subst. repeat split; try done.
    + intros m p h Hin. by apply elem_of_nil in Hin.
    + intros m p h Hr. by left.
  - destruct (routes_of r) as [rs|] eqn:Hrs; [|done]. simpl in Hreg.
    destruct (add_routes rs e) as [e1|] eqn:H1; [|done]. simpl in Hreg.
    destruct (add_routes_route _ _ _ H1) as (Hflag1 & Hkeep1 & Hnew1 & Honly1).
    destruct (IH _ _ Hreg) as (Hflag & Hkeep & Hnew & Honly).
    assert (Hsplit : registered (r :: regs) = rs ++ registered regs).
    { unfold registered. simpl. by rewrite Hrs. }
    rewrite Hsplit.
    split; [congruence|]. split; [|split].
    + intros m p h Hr. by apply Hkeep, Hkeep1.
    + intros m p h Hin. apply elem_of_app in Hin as [Hin|Hin].
      * by apply Hkeep, Hnew1.
      * by apply Hnew.
    + intros m p h Hr. destruct (Honly _ _ _ Hr) as [Hr1|Hin].
      * destruct (Honly1 _ _ _ Hr1) as [Hr0|Hin]; [by left|].
        right. apply elem_of_app. by left.
      * right. apply elem_of_app. by right.
Qed.

(** ** What [resolve] answers *)

Lemma resolve_found e method path h :
  tree_route (trees e) method path = Some h → resolve e method path = Found h.
Proof.
  unfold tree_route, resolve, own_tree.
  destruct (assoc method (trees e)) as [routes|]; simpl; [|done].
  by intros ->.
Qed.

Lemma resolve_not_found e method path :
  HandleMethodNotAllowed e = false →
  tree_route (trees e) method path = None →
  tree_route (trees e) method (path +:+ "/") = None →
  (∀ shorter, trim_slash path = Some shorter →
              tree_route (trees e) method shorter = None) →
  resolve e method path = NotFound.
Proof.
  unfold tree_route, resolve, own_tree. intros -> Hexact Hmore Hless.
  destruct (assoc method (trees e)) as [routes|]; simpl in *; [|done].
  rewrite Hexact.
  assert (Htsr : tsr routes path = false).
  { unfold tsr. rewrite Hmore. rewrite bool_decide_eq_false_2 by (by intros [??]).
    simpl. destruct (trim_slash path) as [shorter|]; [|done].
    rewrite (Hless shorter eq_refl). apply bool_decide_eq_false_2. by intros [??]. }
  rewrite Htsr. by rewrite andb_false_r.
Qed.

(** ** The health endpoint of the gateway *)

Lemma health_body_fields service :
  fields (health_body service) = {["status"; "service"]}.
Proof. vm_compute. reflexivity. Qed.

(** C1, as the specification states it, fails on the gateway: the answer to
    [GET /health] has no [endpoints] member, so it is not of the form
    [{status, endpoints: [...]}]. *)
Lemma gateway_health_not_aggregated :
  ¬ (∀ code body,
       (code, body) ∈ responses (serve gateway [health_request] (world [] [] false)) →
       aggregated_health_form body).
Proof.
  intros Hform.
  destruct (Hform StatusOK (health_body "api-gateway")) as [_ (eps & Heps & _)].
  - change (responses (serve gateway [health_request] (world [] [] false)))
      with [(StatusOK, health_body "api-gateway")].
    apply list_elem_of_singleton. reflexivity.
  - vm_compute in Heps. discriminate Heps.
Qed.

(** C1, amended: every [GET /health] on the gateway returns normally and is
    answered by one [c.JSON] call, status 200, whose body is the object with
    exactly the members [status] and [service]; [status] is always
    ["healthy"], [service] is ["api-gateway"], and there is no [endpoints]
    member. *)
Theorem gateway_health_answer w :
  (ServeHTTP gateway health_request w).1 = Val tt
  ∧ answer gateway health_request w = [EvJSON StatusOK (health_body "api-gateway")]
  ∧ fields (health_body "api-gateway") = {["status"; "service"]}
  ∧ field "status" (health_body "api-gateway") = Some (JStr "healthy")
  ∧ field "service" (health_body "api-gateway") = Some (JStr "api-gateway")
  ∧ field "endpoints" (health_body "api-gateway") = None.
Proof.
  unfold answer. rewrite gateway_serves_health. cbn [fst snd].
  rewrite drop_log_extend.
  split; [done|]. split; [done|]. split; [apply health_body_fields|].
  repeat split.
Qed.

(** C4: serving [GET /health] on the gateway makes no attempt on any
    connection, leaves the downstream side as it was, and writes the same
    answer in every world, i.e. whatever state the downstream is in. *)
Theorem health_read_makes_no_downstream_call w :
  filter is_attempt (answer gateway health_request w) = []
  ∧ attempts (ServeHTTP gateway health_request w).2 = attempts w
  ∧ conn_script (ServeHTTP gateway health_request w).2 = conn_script w
  ∧ users_table (ServeHTTP gateway health_request w).2 = users_table w
  ∧ ∀ w0, answer gateway health_request w0 = answer gateway health_request w.
Proof.
  unfold answer. rewrite gateway_serves_health. cbn [snd].
  rewrite drop_log_extend, attempts_extend. repeat split.
  - simpl. lia.
  - intros w0. rewrite gateway_serves_health. cbn [snd].
    by rewrite drop_log_extend.
Qed.

(** ** Routing *)

Example gateway_get_health : resolve gateway "GET" "/health" = Found (health_handler "api-gateway").
Proof. reflexivity. Qed.

Example gateway_get_root : resolve gateway "GET" "/" = Found root_handler.
Proof. reflexivity. Qed.

Example gateway_get_unknown : resolve gateway "GET" "/orders" = NotFound.
Proof. reflexivity. Qed.

Example gateway_get_health_slash :
  resolve gateway "GET" "/health/" = Redirect StatusMovedPermanently "/health".
Proof. reflexivity. Qed.

(** C2, as the specification states it, fails on the gateway: [/health] is
    registered, under GET only, and [POST /health] is answered NotFound,
    not MethodNotAllowed. *)
Lemma gateway_post_health_not_405 :
  ¬ (method_mismatch gateway "POST" "/health" →
     resolve gateway "POST" "/health" = MethodNotAllowed).
Proof.
  intros Hclaim.
  assert (Hmis : method_mismatch gateway "POST" "/health").
  { split; [reflexivity | vm_compute; discriminate]. }
  specialize (Hclaim Hmis).
  change (resolve gateway "POST" "/health") with NotFound in Hclaim.
  discriminate Hclaim.
Qed.

(** On the model of the router: without a route of the request's method at
    the path or at a slash variant of it, the answer is NotFound. *)
Lemma registered_not_found regs e method path :
  register_all regs Default = Some e →
  (∀ p h, (method, p, h) ∈ registered regs →
          p ≠ path ∧ p ≠ path +:+ "/" ∧ trim_slash path ≠ Some p) →
  resolve e method path = NotFound.
Proof.
  intros Hreg Hnone.
  destruct (register_all_route _ _ _ Hreg) as (Hflag & _ & _ & Honly).
  assert (Hfree : ∀ p, (∀ h, (method, p, h) ∉ registered regs) →
                       tree_route (trees e) method p = None).
  { intros p Hp. destruct (tree_route (trees e) method p) as [h|] eqn:Hr; [|done].
    destruct (Honly _ _ _ Hr) as [Hr0|Hin]; [done | by destruct (Hp h)]. }
  apply resolve_not_found.
  - by rewrite Hflag.
  - apply Hfree. intros h Hin. by destruct (Hnone _ _ Hin) as (? & _).
  - apply Hfree. intros h Hin. by destruct (Hnone _ _ Hin) as (_ & ? & _).
  - intros shorter Htrim. apply Hfree. intros h Hin.
    destruct (Hnone _ _ Hin) as (_ & _ & Hne). congruence.
Qed.

Lemma trim_slash_snoc path : trim_slash (path +:+ "/") = Some path.
Proof.
  induction path as [|c rest IH]; [reflexivity|].
  change (String c rest +:+ "/") with (String c (rest +:+ "/")).
  destruct rest as [|c' rest']; [reflexivity|].
  change (String c' rest' +:+ "/") with (String c' (rest' +:+ "/")) in *.
  cbn [trim_slash]. cbn [trim_slash] in IH. by rewrite IH.
Qed.

Lemma trim_slash_Some path : ∀ shorter,
  trim_slash path = Some shorter → path = shorter +:+ "/".
Proof.
  induction path as [|c rest IH]; intros shorter Htrim; [done|].
  destruct rest as [|c' rest'].
  - simpl in Htrim. destruct (decide (c = "/"%char)) as [->|]; [|done].
    by inversion Htrim.
  - cbn [trim_slash] in Htrim. cbn [trim_slash] in IH.
    destruct (match rest' with
              | "" => if decide (c' = "/"%char) then Some "" else None
              | String _ _ => String c' <$> trim_slash rest'
              end) as [s|] eqn:Hs; [|done].
    simpl in Htrim. inversion Htrim; subst.
    by rewrite (IH s eq_refl).
Qed.

(** C2, amended: on the two routers of the repository, (a) a request
    carrying exactly a registered route's (method, path) resolves to that
    route's handler; (b) a GET request for a registered path with one more
    slash ([/health/], [//], [/users/]) is redirected, with status 301, to
    the registered path, and so is, on the gateway, a GET request with the
    empty path, to [/]; (c) every other request is answered NotFound: in
    particular a request whose path is registered but whose method is not
    GET is answered NotFound, never MethodNotAllowed. *)
Theorem routers_resolution :
  (∀ method path h,
     (method, path, h) ∈ registered gateway_registrations →
     resolve gateway method path = Found h)
  ∧ (∀ method path h,
       (method, path, h) ∈ registered user_registrations →
       resolve user_service method path = Found h)
  ∧ (resolve gateway "GET" "/health/" = Redirect StatusMovedPermanently "/health"
     ∧ resolve gateway "GET" "//" = Redirect StatusMovedPermanently "/"
     ∧ resolve gateway "GET" "" = Redirect StatusMovedPermanently "/"
     ∧ resolve user_service "GET" "/health/"
       = Redirect StatusMovedPermanently "/health"
     ∧ resolve user_service "GET" "/users/"
       = Redirect StatusMovedPermanently "/users")
  ∧ (∀ method path,
       method ≠ "GET" ∨ path ∉ ["/health"; "/"; "/health/"; "//"; ""] →
       resolve gateway method path = NotFound)
  ∧ (∀ method path,
       method ≠ "GET" ∨ path ∉ ["/health"; "/users"; "/health/"; "/users/"] →
       resolve user_service method path = NotFound).
Proof.
  split; [|split; [|split; [|split]]].
  - intros method path h Hin.
    destruct (register_all_route _ _ _ gateway_compiles) as (_ & _ & Hnew & _).
    by apply resolve_found, Hnew.
  - intros method path h Hin.
    destruct (register_all_route _ _ _ user_service_compiles) as (_ & _ & Hnew & _).
    by apply resolve_found, Hnew.
  - repeat split.
  - intros method path Hout.
    apply (registered_not_found gateway_registrations); [reflexivity|].
    intros p h Hin.
    change (registered gateway_registrations)
      with [("GET", "/health", health_handler "api-gateway");
            ("GET", "/", root_handler)] in Hin.
    assert (Hpath : method = "GET" ∧ (p = "/health" ∨ p = "/")).
    { repeat (apply elem_of_cons in Hin as [[= -> -> ->]|Hin]; [by auto|]).
      by apply elem_of_nil in Hin. }
    destruct Hpath as [-> Hp].
    destruct Hout as [?|Hout]; [done|].
    repeat split.
    + intros <-. apply Hout. destruct Hp as [->| ->]; in_list.
    + intros Heq. apply (f_equal trim_slash) in Heq.
      rewrite trim_slash_snoc in Heq.
      destruct Hp as [->| ->]; [discriminate Heq|].
      inversion Heq; subst. apply Hout. in_list.
    + intros Htrim. apply trim_slash_Some in Htrim as ->.
      apply Hout. destruct Hp as [->| ->]; in_list.
  - intros method path Hout.
    apply (registered_not_found user_registrations); [reflexivity|].
    intros p h Hin.
    change (registered user_registrations)
      with [("GET", "/health", health_handler "user-service");
            ("GET", "/users", users_handler)] in Hin.
    assert (Hpath : method = "GET" ∧ (p = "/health" ∨ p = "/users")).
    { repeat (apply elem_of_cons in Hin as [[= -> -> ->]|Hin]; [by auto|]).
      by apply elem_of_nil in Hin. }
    destruct Hpath as [-> Hp].
    destruct Hout as [?|Hout]; [done|].
    repeat split.
    + intros <-. apply Hout. destruct Hp as [->| ->]; in_list.
    + intros Heq. apply (f_equal trim_slash) in Heq.
      rewrite trim_slash_snoc in Heq.
      destruct Hp as [->| ->]; discriminate Heq.
    + intros Htrim. apply trim_slash_Some in Htrim as ->.
      apply Hout. destruct Hp as [->| ->]; in_list.
Qed.

(** The theorem at the gateway: [GET /health] is found, [POST /health] and
    [GET /orders] are not. *)
Lemma routers_resolution_witness :
  ("GET", "/health", health_handler "api-gateway") ∈ registered gateway_registrations
  ∧ resolve gateway "GET" "/health" = Found (health_handler "api-gateway")
  ∧ resolve gateway "POST" "/health" = NotFound
  ∧ resolve gateway "GET" "/orders" = NotFound.
Proof.
  destruct routers_resolution as (Hfound & _ & _ & Hgateway & _).
  split; [apply list_elem_of_here|]. split; [|split].
  - apply Hfound. apply list_elem_of_here.
  - apply Hgateway. left. discriminate.
  - apply Hgateway. right.
    intros Hin. repeat (apply elem_of_cons in Hin as [Hin|Hin]; [discriminate Hin|]).
    by apply elem_of_nil in Hin.
Defined.

(** ** The registration statements of the five services *)

Lemma health_handler_is_placeholder service :
  placeholder_health_check (health_handler service).
Proof. exists service. intros w. reflexivity. Qed.

Lemma root_handler_is_no_health_check : ¬ placeholder_health_check root_handler.
Proof.
  intros [service Hh]. specialize (Hh (world [] [] false)).
  apply (f_equal (λ r, match responses r.2 with
                       | (_, body) :: _ => field "message" body
                       | [] => None
                       end)) in Hh.
  vm_compute in Hh. discriminate Hh.
Qed.

Lemma users_handler_is_no_health_check : ¬ placeholder_health_check users_handler.
Proof.
  intros [service Hh]. specialize (Hh (world [] [] false)).
  apply (f_equal (λ r, attempts r.2)) in Hh. vm_compute in Hh.
  discriminate Hh.
Qed.

(** C3, as the specification states it, fails: the statements with an
    invalid selector are three, not one. *)
Lemma three_invalid_registrations :
  ¬ (length (invalid all_registrations) = 1%nat
     ∧ ∀ r, r ∈ all_registrations → valid_selector (selector r) →
            placeholder_health_check (handler r)).
Proof.
  intros [Hone _].
  change (invalid all_registrations)
    with (order_registrations ++ notification_registrations
          ++ inventory_registrations) in Hone.
  discriminate Hone.
Qed.

(** C3, amended: of the seven registration statements, the three of the
    order, notification and inventory services are written with the
    selector [get], which does not exist, so that their [main] yields no
    router; the other four, of the gateway and the user service, are written
    [GET].  All three invalid statements and two of the four valid ones
    register [/health] with a placeholder health check; the gateway's [/]
    and the user service's [/users] are no health checks. *)
Theorem registrations_survey :
  selector <$> all_registrations = ["GET"; "GET"; "GET"; "GET"; "get"; "get"; "get"]
  ∧ invalid all_registrations
    = order_registrations ++ notification_registrations ++ inventory_registrations
  ∧ register_all order_registrations Default = None
  ∧ register_all notification_registrations Default = None
  ∧ register_all inventory_registrations Default = None
  ∧ (∀ r, r ∈ invalid all_registrations →
          relativePath r = "/health" ∧ placeholder_health_check (handler r))
  ∧ handler <$> filter (λ r, valid_selector (selector r)) all_registrations
    = [health_handler "api-gateway"; root_handler;
       health_handler "user-service"; users_handler]
  ∧ placeholder_health_check (health_handler "api-gateway")
  ∧ ¬ placeholder_health_check root_handler
  ∧ placeholder_health_check (health_handler "user-service")
  ∧ ¬ placeholder_health_check users_handler.
Proof.
  split; [reflexivity|]. split; [reflexivity|].
  split; [reflexivity|]. split; [reflexivity|]. split; [reflexivity|].
  split.
  { intros r Hin.
    change (invalid all_registrations)
      with (order_registrations ++ notification_registrations
            ++ inventory_registrations) in Hin.
    repeat (apply elem_of_cons in Hin as [->|Hin];
            [split; [reflexivity | apply health_handler_is_placeholder]|]).
    apply elem_of_nil in Hin. destruct Hin. }
  split; [reflexivity|].
  split; [apply health_handler_is_placeholder|].
  split; [apply root_handler_is_no_health_check|].
  split; [apply health_handler_is_placeholder|].
  apply users_handler_is_no_health_check.
Qed.

(** The survey at the order service's statement. *)
Lemma registrations_survey_witness :
  reg "get" "/health" (health_handler "order-service") ∈ invalid all_registrations
  ∧ relativePath (reg "get" "/health" (health_handler "order-service")) = "/health"
  ∧ placeholder_health_check
      (handler (reg "get" "/health" (health_handler "order-service"))).
Proof.
  destruct registrations_survey as (_ & _ & _ & _ & _ & Hinvalid & _).
  assert (Hin : reg "get" "/health" (health_handler "order-service")
                ∈ invalid all_registrations).
  { change (invalid all_registrations)
      with (order_registrations ++ notification_registrations
            ++ inventory_registrations).
    apply list_elem_of_here. }
  split; [exact Hin | exact (Hinvalid _ Hin)].
Defined.

(** ** Calls to the database: no circuit state, no retry in the handler *)

(** The answer to a [GET /users] whose [db.Query] hands back the error [e]
    begins with that call and the answer [500 {"error": e}]. *)
Lemma failed_answer_begins w e :
  next_failure w = Some e →
  take 2 (answer user_service users_request w)
  = [EvQuery query; EvJSON StatusInternalServerError (H [("error", JStr e)])].
Proof.
  intros Hf.
  assert (Hs : ∃ rest, conn_script w = Some e :: rest).
  { unfold next_failure in Hf.
    destruct (conn_script w) as [|[e'|] rest]; naive_solver. }
  destruct Hs as [rest Hs].
  unfold answer. rewrite user_service_serves_users. unfold Recovery.
  rewrite (users_handler_failure w e rest Hs).
  destruct (nil_rows_tolerated w); cbv beta iota zeta;
    unfold emit; rewrite ?record_extend; cbn [snd];
    rewrite ?next_attempt_extend, ?extend_extend;
    change (log (extend ?evs (next_attempt w))) with (log (extend evs w));
    by rewrite drop_log_extend.
Qed.

Lemma serve_users_n n : ∀ w,
  attempts (serve user_service (replicate n users_request) w) = (attempts w + n)%nat
  ∧ conn_script (serve user_service (replicate n users_request) w)
    = drop n (conn_script w).
Proof.
  induction n as [|n IH]; intros w; simpl.
  - split; [lia | by rewrite drop_0].
  - destruct (serve_users_once w) as [Hatt Hscript].
    destruct (IH (ServeHTTP user_service users_request w).2) as [IHatt IHscript].
    rewrite IHatt, IHscript, Hatt, Hscript. split; [lia|].
    destruct (conn_script w); simpl; [by rewrite drop_nil | done].
Qed.

(** C5, as the specification states it, fails on the one downstream call of
    the code, the query of [GET /users]: with [db.Query] handing back an
    error every time, three requests in a row fail (each answered 500 with
    that error), and the fourth still calls [db.Query]; no threshold of 1, 2
    or 3 failures makes the next request fail fast. *)
Lemma fourth_request_still_queries :
  responses (serve user_service (replicate 3 users_request) broken_connection)
  = replicate 3 (StatusInternalServerError, H [("error", JStr connection_reset)])
  ∧ attempts (serve user_service (replicate 3 users_request) broken_connection) = 3%nat
  ∧ attempts (serve user_service (replicate 4 users_request) broken_connection) = 4%nat
  ∧ ¬ fails_fast_after 1 broken_connection
  ∧ ¬ fails_fast_after 2 broken_connection
  ∧ ¬ fails_fast_after 3 broken_connection.
Proof.
  split; [vm_compute; reflexivity|].
  split; [vm_compute; reflexivity|].
  split; [vm_compute; reflexivity|].
  unfold fails_fast_after. repeat split; vm_compute; discriminate.
Qed.

(** C5, amended: the code keeps no circuit state.  However many requests
    [GET /users] came before and whatever [db.Query] handed back to them,
    the next request calls [db.Query] again: [n] requests make [n] calls
    and use up [n] outcomes, and if the call of request [n + 1] hands back
    the error [e], that request is answered [500 {"error": e}] after its
    call -- it is not failed fast.  (Counted are the calls of [db.Query],
    not the tries of a connection [database/sql] makes inside one.) *)
Theorem every_request_calls_db_Query n w :
  attempts (serve user_service (replicate n users_request) w) = (attempts w + n)%nat
  ∧ conn_script (serve user_service (replicate n users_request) w)
    = drop n (conn_script w)
  ∧ ∀ e, conn_script w !! n = Some (Some e) →
         take 2 (answer user_service users_request
                   (serve user_service (replicate n users_request) w))
         = [EvQuery query;
            EvJSON StatusInternalServerError (H [("error", JStr e)])].
Proof.
  destruct (serve_users_n n w) as [Hatt Hscript].
  split; [exact Hatt|]. split; [exact Hscript|].
  intros e He. apply failed_answer_begins.
  unfold next_failure. rewrite Hscript.
  destruct (drop n (conn_script w)) as [|o rest] eqn:Hdrop.
  - apply (f_equal (λ l, l !! 0%nat)) in Hdrop.
    rewrite lookup_drop, Nat.add_0_r, He in Hdrop. discriminate Hdrop.
  - apply (f_equal (λ l, l !! 0%nat)) in Hdrop.
    rewrite lookup_drop, Nat.add_0_r, He in Hdrop. by inversion Hdrop.
Qed.

(** The fourth request on a connection whose every call fails. *)
Lemma every_request_calls_db_Query_witness :
  conn_script broken_connection !! 3%nat = Some (Some connection_reset)
  ∧ attempts (serve user_service (replicate 3 users_request) broken_connection)
    = 3%nat
  ∧ take 2 (answer user_service users_request
              (serve user_service (replicate 3 users_request) broken_connection))
    = [EvQuery query;
       EvJSON StatusInternalServerError (H [("error", JStr connection_reset)])].
Proof.
  split; [reflexivity|].
  destruct (every_request_calls_db_Query 3 broken_connection) as (Hatt & _ & Hfail).
  split; [exact Hatt | apply Hfail; reflexivity].
Defined.

(** C6, as the specification states it, fails on [GET /users], a read: the
    call of [db.Query] hands back an error, the next call would hand back
    rows, and the handler makes no second call; the client gets status 500
    with the driver's message. *)
Lemma failed_query_is_not_retried :
  next_failure flaky_connection = Some connection_reset
  ∧ conn_script (serve user_service [users_request] flaky_connection) = [None]
  ∧ responses (serve user_service [users_request] flaky_connection)
    = [(StatusInternalServerError, H [("error", JStr connection_reset)])]
  ∧ ¬ retried flaky_connection.
Proof.
  split; [reflexivity|]. split; [reflexivity|].
  split; [vm_compute; reflexivity|].
  unfold retried. vm_compute. lia.
Qed.

(** C6, amended: the handler does not retry.  Every [GET /users] calls
    [db.Query] exactly once, whether the call hands back rows or an error;
    when it hands back the error [e], the handler's next step is the answer
    [500 {"error": e}], the driver's own message.  (What [database/sql] does
    inside the one call, where it re-issues a statement on
    [driver.ErrBadConn], is not the handler's and is not counted.) *)
Theorem one_db_Query_call_per_request w :
  attempts (ServeHTTP user_service users_request w).2 = S (attempts w)
  ∧ conn_script (ServeHTTP user_service users_request w).2 = tail (conn_script w)
  ∧ ∀ e, next_failure w = Some e →
         take 2 (answer user_service users_request w)
         = [EvQuery query;
            EvJSON StatusInternalServerError (H [("error", JStr e)])].
Proof.
  destruct (serve_users_once w) as [Hatt Hscript].
  split; [exact Hatt|]. split; [exact Hscript|].
  intros e Hf. by apply failed_answer_begins.
Qed.

Lemma one_db_Query_call_per_request_witness :
  next_failure flaky_connection = Some connection_reset
  ∧ attempts (ServeHTTP user_service users_request flaky_connection).2 = 1%nat
  ∧ take 2 (answer user_service users_request flaky_connection)
    = [EvQuery query;
       EvJSON StatusInternalServerError (H [("error", JStr connection_reset)])].
Proof.
  split; [reflexivity|].
  destruct (one_db_Query_call_per_request flaky_connection) as (Hatt & _ & Hfail).
  split; [exact Hatt | apply Hfail; reflexivity].
Defined.

(** ** The [GET /users] handler *)

(** C8: when the query fails with error [e], the handler writes the answer
    [500 {"error": e}] and goes on: it calls [rows.Next()] on the nil rows
    and, through the [defer], [rows.Close()] on the nil rows.  Where those
    calls panic (as [database/sql]'s do), the handler panics after the 500
    answer; where they do not, it writes a second answer, [200 {"users":
    []}], for the same request. *)
Theorem failed_query_falls_through w e :
  next_failure w = Some e →
  (users_handler w).1
  = (if nil_rows_tolerated w then Val tt else Panic nil_dereference)
  ∧ log (users_handler w).2
    = log w
      ++ [EvQuery query;
          EvJSON StatusInternalServerError (H [("error", JStr e)]);
          EvNext true]
      ++ (if nil_rows_tolerated w
          then [EvJSON StatusOK (H [("users", JArr [])])] else [])
      ++ [EvClose true]
  ∧ responses (users_handler w).2
    = responses w
      ++ (StatusInternalServerError, H [("error", JStr e)])
         :: (if nil_rows_tolerated w
             then [(StatusOK, H [("users", JArr [])])] else []).
Proof.
  intros Hf.
  assert (Hs : ∃ rest, conn_script w = Some e :: rest).
  { unfold next_failure in Hf.
    destruct (conn_script w) as [|[e'|] rest]; naive_solver. }
  destruct Hs as [rest Hs].
  rewrite (users_handler_failure w e rest Hs). cbn [fst snd].
  split; [done|]. split; [done|].
  rewrite next_attempt_extend, responses_extend.
  by destruct (nil_rows_tolerated w).
Qed.

Lemma failed_query_falls_through_witness :
  next_failure flaky_connection = Some connection_reset
  ∧ (users_handler flaky_connection).1 = Panic nil_dereference
  ∧ responses (users_handler flaky_connection).2
    = [(StatusInternalServerError, H [("error", JStr connection_reset)])].
Proof.
  split; [reflexivity|].
  destruct (failed_query_falls_through flaky_connection connection_reset eq_refl)
    as (Hres & _ & Hresp).
  split; [exact Hres | exact Hresp].
Defined.

Lemma User_json_fields u : fields (User_json u) = {["id"; "email"; "username"]}.
Proof. vm_compute. reflexivity. Qed.

Lemma pg_exec_users_length table :
  (length (pg_exec users_select table) ≤ 10)%nat.
Proof. unfold pg_exec; simpl. rewrite length_take. lia. Qed.

(** Serving [GET /users] when the query goes through. *)
Lemma serve_users_success w :
  next_failure w = None →
  ServeHTTP user_service users_request w =
    (Val tt,
     next_attempt
       (extend ([EvQuery query]
                ++ replicate (S (length (take 10 (users_table w)))) (EvNext false)
                ++ [EvJSON StatusOK
                      (H [("users",
                           JArr (User_json <$> scanned (take 10 (users_table w))))]);
                    EvClose false]) w)).
Proof.
  intros Hf. rewrite user_service_serves_users. unfold Recovery.
  by rewrite (users_handler_success w Hf).
Qed.

(** C9: every [GET /users] whose query goes through is answered once, with
    status 200 and a body [{"users": [...]}] whose list has at most 10
    entries, each an object with exactly the members [id], [email] and
    [username]. *)
Theorem users_answer_at_most_ten w :
  next_failure w = None →
  (ServeHTTP user_service users_request w).1 = Val tt
  ∧ ∃ us,
      omap json_of (answer user_service users_request w)
      = [(StatusOK, H [("users", JArr us)])]
      ∧ (length us ≤ 10)%nat
      ∧ ∀ u, u ∈ us → fields u = {["id"; "email"; "username"]}.
Proof.
  intros Hf. unfold answer. rewrite (serve_users_success w Hf). cbn [fst snd].
  split; [done|].
  exists (User_json <$> scanned (take 10 (users_table w))).
  rewrite next_attempt_extend.
  change (log (extend ?evs (next_attempt w))) with (log (extend evs w)).
  rewrite drop_log_extend. split; [|split].
  - rewrite !omap_app, omap_json_replicate_next. reflexivity.
  - rewrite length_fmap. etransitivity; [apply scanned_length|].
    rewrite length_take. lia.
  - intros j Hin. apply list_elem_of_fmap in Hin as (u & -> & _).
    apply User_json_fields.
Qed.

(** The integration test's run: the seeded table, a working connection. *)
Lemma users_answer_at_most_ten_witness :
  next_failure (world seed_users [] false) = None
  ∧ (ServeHTTP user_service users_request (world seed_users [] false)).1 = Val tt
  ∧ ∃ us,
      omap json_of (answer user_service users_request (world seed_users [] false))
      = [(StatusOK, H [("users", JArr us)])]
      ∧ (length us ≤ 10)%nat
      ∧ ∀ u, u ∈ us → fields u = {["id"; "email"; "username"]}.
Proof.
  split; [reflexivity|].
  apply (users_answer_at_most_ten (world seed_users [] false)). reflexivity.
Defined.

Lemma elem_of_scanned u rows : u ∈ scanned rows ↔ Scannable u ∈ rows.
Proof.
  unfold scanned. rewrite list_elem_of_omap. split.
  - intros ([u'|err] & Hin & Heq); simpl in Heq; [|done].
    by inversion Heq; subst.
  - intros Hin. by exists (Scannable u).
Qed.

(** C10: when the query goes through, the rows whose scan fails leave no
    trace in the answer.  Whatever the mix of rows, the request returns
    normally with one answer, status 200, listing the users of exactly the
    rows that scanned, in order; nothing else is written (no error member,
    no other status), and the rows are closed. *)
Theorem unscannable_rows_are_skipped w :
  next_failure w = None →
  (ServeHTTP user_service users_request w).1 = Val tt
  ∧ answer user_service users_request w
    = [EvQuery query]
      ++ replicate (S (length (take 10 (users_table w)))) (EvNext false)
      ++ [EvJSON StatusOK
            (H [("users", JArr (User_json <$> scanned (take 10 (users_table w))))]);
          EvClose false]
  ∧ field "error"
      (H [("users", JArr (User_json <$> scanned (take 10 (users_table w))))]) = None
  ∧ ∀ u, u ∈ scanned (take 10 (users_table w))
         ↔ Scannable u ∈ take 10 (users_table w).
Proof.
  intros Hf. unfold answer. rewrite (serve_users_success w Hf). cbn [fst snd].
  rewrite next_attempt_extend.
  change (log (extend ?evs (next_attempt w))) with (log (extend evs w)).
  rewrite drop_log_extend.
  split; [done|]. split; [done|]. split; [reflexivity|].
  intros u. apply elem_of_scanned.
Qed.

(** A table whose first row does not scan. *)
Lemma unscannable_rows_are_skipped_witness :
  next_failure (world (Unscannable "converting NULL to string is unsupported"
                       :: seed_users) [] false) = None
  ∧ answer user_service users_request
      (world (Unscannable "converting NULL to string is unsupported"
              :: seed_users) [] false)
    = [EvQuery query; EvNext false; EvNext false; EvNext false; EvNext false;
       EvJSON StatusOK
         (H [("users",
              JArr [User_json {| ID := 1; Email := "john.doe@example.com";
                                 Username := "johndoe" |};
                    User_json {| ID := 2; Email := "jane.doe@example.com";
                                 Username := "janedoe" |}])]);
       EvClose false].
Proof.
  split; [reflexivity|].
  apply (unscannable_rows_are_skipped
           (world (Unscannable "converting NULL to string is unsupported"
                   :: seed_users) [] false) eq_refl).
Defined.

(** [TestUsersEndpointIntegration] on the seeded table: status 200, a
    non-empty [users] list, and the first user has the three members. *)
Example integration_test_passes :
  ∃ first others,
    responses (serve user_service [users_request] (world seed_users [] false))
    = [(StatusOK, H [("users", JArr (first :: others))])]
    ∧ is_Some (field "id" first) ∧ is_Some (field "email" first)
    ∧ is_Some (field "username" first).
Proof.
  eexists _, _. split; [vm_compute; reflexivity|].
  repeat split; by eexists.
Qed.

(** * Further properties of the services *)

(** ** What the routers dispatch to *)

(** A handler [resolve] finds is the handler of a route of the tree. *)
Lemma resolve_found_route e method path h :
  resolve e method path = Found h → tree_route (trees e) method path = Some h.
Proof.
  unfold resolve, own_tree, tree_route.
  destruct (assoc method (trees e)) as [routes|]; simpl.
  - destruct (assoc path routes) as [h'|]; [by intros [= ->]|].
    destruct (_ && _ && _ && _); [done|]. by destruct (_ && _).
  - by destruct (_ && _).
Qed.

(** A redirect is a 301 for GET and a 307 otherwise; and without
    [HandleMethodNotAllowed] the answer is never MethodNotAllowed. *)
Lemma resolve_redirect_code e method path code location :
  resolve e method path = Redirect code location →
  code = if decide (method = "GET") then StatusMovedPermanently
         else StatusTemporaryRedirect.
Proof.
  unfold resolve, own_tree.
  destruct (assoc method (trees e)) as [routes|]; simpl.
  - destruct (assoc path routes) as [h|]; [done|].
    destruct (_ && _ && _ && _); [by intros [= <- _] | by destruct (_ && _)].
  - by destruct (_ && _).
Qed.

Lemma resolve_not_405 e method path :
  HandleMethodNotAllowed e = false → resolve e method path ≠ MethodNotAllowed.
Proof.
  unfold resolve, own_tree. intros ->.
  destruct (assoc method (trees e)) as [routes|]; simpl; [|done].
  destruct (assoc path routes) as [h|]; [done|].
  by destruct (_ && _ && _ && _).
Qed.

(** What serving one request on the gateway does: whatever the method and
    the path, the request returns and one event is added, which is the
    health answer, the greeting, a 301 redirect or gin's 404. *)
Lemma gateway_serves_one_event req w :
  ∃ ev,
    ServeHTTP gateway req w = (Val tt, extend [ev] w)
    ∧ (ev = EvJSON StatusOK (health_body "api-gateway")
       ∨ ev = EvJSON StatusOK (H [("message", JStr "Hello! - API Gateway")])
       ∨ (∃ location, ev = EvRedirect StatusMovedPermanently location)
       ∨ ev = EvServeError StatusNotFound).
Proof.
  destruct req as [method path].
  change (ServeHTTP gateway (method, path) w)
    with (Recovery (handleHTTPRequest gateway method path) w).
  unfold Recovery, handleHTTPRequest.
  destruct (resolve gateway method path) as [h|code location| |] eqn:Hres.
  - apply resolve_found_route in Hres.
    destruct (register_all_route _ _ _ gateway_compiles) as (_ & _ & _ & Honly).
    destruct (Honly _ _ _ Hres) as [Hnone|Hin]; [done|].
    change (registered gateway_registrations)
      with [("GET", "/health", health_handler "api-gateway");
            ("GET", "/", root_handler)] in Hin.
    apply elem_of_cons in Hin as [[= -> -> ->]|Hin]; [eexists; by eauto|].
    apply elem_of_cons in Hin as [[= -> -> ->]|Hin]; [eexists; by eauto|].
    by apply elem_of_nil in Hin.
  - destruct (decide (method = "GET")) as [->|Hmethod].
    + apply resolve_redirect_code in Hres as ->. eexists. split; [done|].
      right; right; left. by eexists.
    + rewrite (registered_not_found gateway_registrations gateway method path
                 gateway_compiles) in Hres; [done|].
      intros p h Hin.
      change (registered gateway_registrations)
        with [("GET", "/health", health_handler "api-gateway");
              ("GET", "/", root_handler)] in Hin.
      apply elem_of_cons in Hin as [[= -> _ _]|Hin]; [done|].
      apply elem_of_cons in Hin as [[= -> _ _]|Hin]; [done|].
      by apply elem_of_nil in Hin.
  - by apply resolve_not_405 in Hres.
  - eexists. split; [done|]. by repeat right.
Qed.

(** X1: every request handed to the gateway's router -- any method, any
    path -- returns with exactly one answer: the health answer, the
    greeting, a 301 redirect or gin's 404.  Whatever the sequence of
    requests, the log grows by these answers alone: [db.Query] is never
    called and the database side stays as it was. *)
Theorem gateway_never_calls_downstream reqs : ∀ w,
  ∃ answers,
    log (serve gateway reqs w) = log w ++ answers
    ∧ length answers = length reqs
    ∧ Forall (λ ev,
        ev = EvJSON StatusOK (health_body "api-gateway")
        ∨ ev = EvJSON StatusOK (H [("message", JStr "Hello! - API Gateway")])
        ∨ (∃ location, ev = EvRedirect StatusMovedPermanently location)
        ∨ ev = EvServeError StatusNotFound) answers
    ∧ attempts (serve gateway reqs w) = attempts w
    ∧ conn_script (serve gateway reqs w) = conn_script w
    ∧ users_table (serve gateway reqs w) = users_table w.
Proof.
  induction reqs as [|req reqs IH]; intros w; simpl.
  - exists []. rewrite app_nil_r. repeat split. constructor.
  - destruct (gateway_serves_one_event req w) as (ev & -> & Hev).
    cbn [snd].
    destruct (IH (extend [ev] w))
      as (answers & Hlog & Hlen & Hall & Hatt & Hscript & Htable).
    exists (ev :: answers).
    rewrite Hlog, Hatt, Hscript, Htable, attempts_extend. simpl.
    split; [by rewrite <- (assoc_L (++))|]. split; [by rewrite Hlen|].
    split; [by constructor|].
    rewrite filter_cons_False.
    + repeat split. simpl. lia.
    + destruct Hev as [->|[->|[[location ->]| ->]]]; simpl; tauto.
Qed.

(** ** The user service *)

Lemma user_service_serves_health w :
  ServeHTTP user_service health_request w =
    (Val tt, extend [EvJSON StatusOK (health_body "user-service")] w).
Proof. reflexivity. Qed.

(** X2: The health check of the user service does not look at the database: in
    every world, also with a connection that fails, it makes no attempt,
    leaves the outcomes of the connection unused, and answers 200 with
    [{status: healthy, service: user-service}]. *)
Theorem user_health_ignores_database w :
  answer user_service health_request w
  = [EvJSON StatusOK (health_body "user-service")]
  ∧ attempts (ServeHTTP user_service health_request w).2 = attempts w
  ∧ conn_script (ServeHTTP user_service health_request w).2 = conn_script w
  ∧ recorded_Code (answer user_service health_request w) = StatusOK.
Proof.
  unfold answer. rewrite user_service_serves_health. cbn [snd].
  rewrite drop_log_extend, attempts_extend. repeat split. simpl. lia.
Qed.

Lemma emit_no_attempt ev w :
  is_attempt ev = false →
  attempts (Recovery (emit ev) w).2 = attempts w
  ∧ conn_script (Recovery (emit ev) w).2 = conn_script w.
Proof.
  intros Hev. unfold Recovery, emit. cbn [snd].
  rewrite record_extend, attempts_extend. simpl.
  rewrite filter_cons_False by (rewrite Hev; simpl; tauto).
  split; [simpl; lia | done].
Qed.

(** A request other than [GET /users] does not call [db.Query]. *)
Lemma user_service_other_request req w :
  req ≠ users_request →
  attempts (ServeHTTP user_service req w).2 = attempts w
  ∧ conn_script (ServeHTTP user_service req w).2 = conn_script w.
Proof.
  destruct req as [method path]. intros Hreq.
  change (ServeHTTP user_service (method, path) w)
    with (Recovery (handleHTTPRequest user_service method path) w).
  unfold handleHTTPRequest.
  destruct (resolve user_service method path) as [h|code location| |] eqn:Hres;
    [|by apply emit_no_attempt..].
  apply resolve_found_route in Hres.
  destruct (register_all_route _ _ _ user_service_compiles) as (_ & _ & _ & Honly).
  destruct (Honly _ _ _ Hres) as [Hnone|Hin]; [done|].
  change (registered user_registrations)
    with [("GET", "/health", health_handler "user-service");
          ("GET", "/users", users_handler)] in Hin.
  apply elem_of_cons in Hin as [[= -> -> ->]|Hin];
    [by apply (emit_no_attempt (EvJSON StatusOK (health_body "user-service")))|].
  apply elem_of_cons in Hin as [[= -> -> ->]|Hin]; [done|].
  by apply elem_of_nil in Hin.
Qed.

(** X3: on the user service [db.Query] is called once per [GET /users] and
    never otherwise: after any sequence of requests, the number of calls
    made and of their outcomes used up is the number of [GET /users]
    requests in it.  (Calls of [db.Query], not the tries of a connection
    [database/sql] makes inside one.) *)
Theorem one_query_per_users_request reqs : ∀ w,
  attempts (serve user_service reqs w) = (attempts w + users_requests reqs)%nat
  ∧ conn_script (serve user_service reqs w)
    = drop (users_requests reqs) (conn_script w).
Proof.
  unfold users_requests.
  induction reqs as [|req reqs IH]; intros w; simpl.
  - split; [lia | done].
  - destruct (IH (ServeHTTP user_service req w).2) as [IHatt IHscript].
    rewrite IHatt, IHscript.
    destruct (decide (req = users_request)) as [->|Hreq].
    + destruct (serve_users_once w) as [Hatt Hscript].
      rewrite Hatt, Hscript, filter_cons_True by done. simpl. split; [lia|].
      destruct (conn_script w); simpl; [by rewrite drop_nil | done].
    + destruct (user_service_other_request req w Hreq) as [Hatt Hscript].
      rewrite Hatt, Hscript, filter_cons_False by done. done.
Qed.

(** ** What the recorder holds after [GET /users] *)

Lemma answer_users_success w :
  next_failure w = None →
  answer user_service users_request w
  = [EvQuery query]
    ++ replicate (S (length (take 10 (users_table w)))) (EvNext false)
    ++ [EvJSON StatusOK
          (H [("users", JArr (User_json <$> scanned (take 10 (users_table w))))]);
        EvClose false].
Proof.
  intros Hf. unfold answer. rewrite (serve_users_success w Hf). cbn [snd].
  rewrite next_attempt_extend.
  change (log (extend ?evs (next_attempt w))) with (log (extend evs w)).
  apply drop_log_extend.
Qed.

Lemma answer_users_failure w e :
  next_failure w = Some e →
  answer user_service users_request w
  = [EvQuery query;
     EvJSON StatusInternalServerError (H [("error", JStr e)]);
     EvNext true]
    ++ (if nil_rows_tolerated w
        then [EvJSON StatusOK (H [("users", JArr [])]); EvClose true]
        else [EvClose true; EvAbort StatusInternalServerError]).
Proof.
  intros Hf.
  assert (Hs : ∃ rest, conn_script w = Some e :: rest).
  { unfold next_failure in Hf.
    destruct (conn_script w) as [|[e'|] rest]; naive_solver. }
  destruct Hs as [rest Hs].
  unfold answer. rewrite user_service_serves_users. unfold Recovery.
  rewrite (users_handler_failure w e rest Hs).
  destruct (nil_rows_tolerated w); cbv beta iota zeta;
    unfold emit; rewrite ?record_extend; cbn [snd];
    rewrite ?next_attempt_extend, ?extend_extend;
    change (log (extend ?evs (next_attempt w))) with (log (extend evs w));
    by rewrite drop_log_extend.
Qed.

Lemma status_of_replicate_next n b : omap status_of (replicate n (EvNext b)) = [].
Proof. induction n as [|n IH]; [done | by simpl]. Qed.

Lemma body_of_replicate_next n b : replicate n (EvNext b) ≫= body_of = [].
Proof. induction n as [|n IH]; [done | by simpl]. Qed.

Lemma recorded_users_success w :
  next_failure w = None →
  recorded_Code (answer user_service users_request w) = StatusOK
  ∧ recorded_Body (answer user_service users_request w)
    = [Doc (H [("users", JArr (User_json <$> scanned (take 10 (users_table w))))])].
Proof.
  intros Hf. rewrite (answer_users_success w Hf).
  unfold recorded_Code, recorded_Body.
  rewrite !omap_app, !bind_app, status_of_replicate_next, body_of_replicate_next.
  done.
Qed.

(** ** Decoding the answers of [GET /users] *)

Lemma fits_map_users us : forallb fits_map (User_json <$> us) = true.
Proof. induction us as [|u us IH]; [done | by simpl]. Qed.

Lemma Unmarshal_users us :
  Unmarshal [Doc (H [("users", JArr (User_json <$> us))])]
  = (None, {["users" := as_map <$> (User_json <$> us)]}).
Proof.
  unfold Unmarshal, H.
  change (list_to_map [("users", JArr (User_json <$> us))])
    with (<["users" := JArr (User_json <$> us)]> (∅ : gmap string json)).
  rewrite insert_empty, map_to_list_singleton, map_fmap_singleton.
  simpl. by rewrite fits_map_users.
Qed.

Lemma Unmarshal_error e :
  Unmarshal [Doc (H [("error", JStr e)])]
  = (Some UnmarshalTypeError, {["error" := []]}).
Proof.
  unfold Unmarshal, H.
  change (list_to_map [("error", JStr e)])
    with (<["error" := JStr e]> (∅ : gmap string json)).
  by rewrite insert_empty, map_to_list_singleton, map_fmap_singleton.
Qed.

Lemma User_json_members u :
  as_map (User_json u) !! "id" = Some (JNum (ID u))
  ∧ as_map (User_json u) !! "email" = Some (JStr (Email u))
  ∧ as_map (User_json u) !! "username" = Some (JStr (Username u)).
Proof. repeat split. Qed.

(** ** The integration test *)

(** X5: The test on a response without users: whatever the status and the body,
    if the decoded [users] list is empty (or missing) the test reports
    "Expected at least one user" and then panics on [users[0]]; it cannot
    end normally. *)
Theorem test_panics_without_users code body :
  default [] ((Unmarshal body).2 !! "users") = [] →
  ∃ earlier,
    response_checks code body = (earlier ++ [NoUsers], Panic index_out_of_range)
    ∧ earlier = (if decide (code ≠ StatusOK) then [UnexpectedStatus code] else [])
                ++ match (Unmarshal body).1 with
                   | Some e => [ParseFailed e]
                   | None => []
                   end.
Proof.
  intros Hempty. unfold response_checks.
  destruct (Unmarshal body) as [err response]. simpl in *. rewrite Hempty.
  eexists. split; [|reflexivity]. simpl. by rewrite (assoc_L (++)).
Qed.

Lemma test_panics_without_users_witness :
  default [] ((Unmarshal [Doc (H [("users", JArr [])])]).2 !! "users") = []
  ∧ response_checks StatusOK [Doc (H [("users", JArr [])])]
    = ([NoUsers], Panic index_out_of_range).
Proof.
  split; [reflexivity|].
  destruct (test_panics_without_users StatusOK [Doc (H [("users", JArr [])])] eq_refl)
    as (earlier & -> & ->).
  reflexivity.
Defined.

(** X6: When the test passes: exactly when the database connected, the request
    returned, the recorded status is 200, the body decoded without error,
    and the first user of the decoded list has non-nil [id], [email] and
    [username].  Users after the first are not looked at. *)
Theorem test_passes_iff connect router w :
  TestUsersEndpointIntegration connect router w = ([], Val tt)
  ↔ connect = None
    ∧ (ServeHTTP router users_request w).1 = Val tt
    ∧ recorded_Code (answer router users_request w) = StatusOK
    ∧ (Unmarshal (recorded_Body (answer router users_request w))).1 = None
    ∧ ∃ first others,
        (Unmarshal (recorded_Body (answer router users_request w))).2 !! "users"
        = Some (first :: others)
        ∧ is_nil (first !! "id") = false
        ∧ is_nil (first !! "email") = false
        ∧ is_nil (first !! "username") = false.
Proof.
  unfold TestUsersEndpointIntegration, response_checks.
  destruct connect as [err|].
  { split; [discriminate | by intros (? & _)]. }
  destruct ((ServeHTTP router users_request w).1) as [[]|msg].
  2:{ split; [discriminate | by intros (_ & ? & _)]. }
  destruct (Unmarshal (recorded_Body (answer router users_request w)))
    as [err response]. cbn [fst snd].
  destruct (decide (recorded_Code (answer router users_request w) ≠ StatusOK))
    as [Hcode|Hcode];
    destruct err as [e|];
    destruct (response !! "users") as [[|first others]|] eqn:Husers; simpl;
    try destruct (is_nil (first !! "id")) eqn:Hid;
    try destruct (is_nil (first !! "email")) eqn:Hemail;
    try destruct (is_nil (first !! "username")) eqn:Hname; simpl.
  all: try (split;
            [intros Heq; discriminate Heq
            |intros (_ & _ & Hcode' & Herr & f & o & Hu & Hi & He & Hn);
             simplify_eq; congruence]).
  apply dec_stable in Hcode.
  split; [intros _ | done].
  repeat split; try done. by exists first, others.
Qed.

Lemma test_passes_iff_witness :
  TestUsersEndpointIntegration None user_service (world seed_users [] false)
  = ([], Val tt).
Proof.
  apply (test_passes_iff None user_service (world seed_users [] false)).
  split; [reflexivity|]. split; [reflexivity|]. split; [reflexivity|].
  split; [reflexivity|].
  eexists _, _. split; [reflexivity|]. repeat split.
Defined.

Lemma serve_users_returns w : (ServeHTTP user_service users_request w).1 = Val tt.
Proof.
  rewrite user_service_serves_users. unfold Recovery.
  by destruct (users_handler w) as [[[]|msg] w'].
Qed.

Lemma test_passes_when_a_row_scans w :
  next_failure w = None →
  scanned (take 10 (users_table w)) ≠ [] →
  TestUsersEndpointIntegration None user_service w = ([], Val tt).
Proof.
  intros Hf Hsome. unfold TestUsersEndpointIntegration.
  rewrite serve_users_returns.
  destruct (recorded_users_success w Hf) as [-> ->].
  unfold response_checks. rewrite Unmarshal_users, lookup_singleton_eq.
  destruct (scanned (take 10 (users_table w))) as [|u us]; [done|].
  reflexivity.
Qed.

(** X7: The test against the user service, the query going through: it passes
    as soon as one of the first ten rows of the table scans, whatever else
    the table holds. *)
Theorem test_passes_on_a_listing w :
  next_failure w = None →
  scanned (take 10 (users_table w)) ≠ [] →
  TestUsersEndpointIntegration None user_service w = ([], Val tt).
Proof. apply test_passes_when_a_row_scans. Qed.

Lemma test_passes_on_a_listing_witness :
  next_failure (world (Unscannable "x" :: seed_users) [] false) = None
  ∧ scanned (take 10 (users_table (world (Unscannable "x" :: seed_users) [] false)))
    ≠ []
  ∧ TestUsersEndpointIntegration None user_service
      (world (Unscannable "x" :: seed_users) [] false) = ([], Val tt).
Proof.
  split; [reflexivity|]. split; [discriminate|].
  apply (test_passes_on_a_listing (world (Unscannable "x" :: seed_users) [] false));
    [reflexivity | discriminate].
Defined.

(** X8: The test against the user service, the query going through but none of
    the first ten rows scanning (an empty table, for one): the service
    answers 200 with an empty list, and the test reports the missing user
    and panics. *)
Theorem test_panics_on_an_empty_listing w :
  next_failure w = None →
  scanned (take 10 (users_table w)) = [] →
  TestUsersEndpointIntegration None user_service w
  = ([NoUsers], Panic index_out_of_range).
Proof.
  intros Hf Hnone. unfold TestUsersEndpointIntegration.
  rewrite serve_users_returns.
  destruct (recorded_users_success w Hf) as [-> ->].
  rewrite Hnone. reflexivity.
Qed.

Lemma test_panics_on_an_empty_listing_witness :
  next_failure (world [] [] false) = None
  ∧ scanned (take 10 (users_table (world [] [] false))) = []
  ∧ TestUsersEndpointIntegration None user_service (world [] [] false)
    = ([NoUsers], Panic index_out_of_range).
Proof.
  split; [reflexivity|]. split; [reflexivity|].
  apply (test_panics_on_an_empty_listing (world [] [] false)); reflexivity.
Defined.

(** X9: The test against the user service, the query failing: the recorded
    status is 500 (the first written, also where the handler goes on to
    write 200), the body does not decode -- it is the error object, or two
    documents in a row -- and the test reports the status, the decoding
    error and the missing user, then panics. *)
Theorem test_on_a_failing_connection w e :
  next_failure w = Some e →
  recorded_Code (answer user_service users_request w) = StatusInternalServerError
  ∧ recorded_Body (answer user_service users_request w)
    = Doc (H [("error", JStr e)])
      :: (if nil_rows_tolerated w then [Doc (H [("users", JArr [])])] else [])
  ∧ TestUsersEndpointIntegration None user_service w
    = ([UnexpectedStatus StatusInternalServerError;
        ParseFailed (if nil_rows_tolerated w then SyntaxError
                     else UnmarshalTypeError);
        NoUsers],
       Panic index_out_of_range).
Proof.
  intros Hf. unfold TestUsersEndpointIntegration.
  rewrite serve_users_returns, (answer_users_failure w e Hf).
  destruct (nil_rows_tolerated w).
  - repeat split.
  - split; [done|]. split; [done|].
    change (recorded_Body _) with [Doc (H [("error", JStr e)])].
    unfold response_checks. rewrite Unmarshal_error. reflexivity.
Qed.

Lemma test_on_a_failing_connection_witness :
  next_failure flaky_connection = Some connection_reset
  ∧ TestUsersEndpointIntegration None user_service flaky_connection
    = ([UnexpectedStatus StatusInternalServerError;
        ParseFailed UnmarshalTypeError; NoUsers],
       Panic index_out_of_range).
Proof.
  split; [reflexivity|].
  apply (test_on_a_failing_connection flaky_connection connection_reset eq_refl).
Defined.

(** ** The schema file *)

Lemma NoDup_snoc {A : Type} (l : list A) (x : A) :
  NoDup l → x ∉ l → NoDup (l ++ [x]).
Proof.
  intros Hl Hx. apply NoDup_app. split; [done|]. split.
  - intros y Hy Hin. apply list_elem_of_singleton in Hin as ->. done.
  - apply NoDup_singleton.
Qed.

(** What a run of the tuples that went through has done: the sequence moved
    on by one per tuple; rows were only added, at the end, at most one per
    tuple, each with a tuple's email not stored before; every tuple's email
    is stored afterwards; the uniqueness constraints still hold. *)
Lemma insert_do_nothing_done ps now : ∀ rows seq rows' seq',
  insert_do_nothing ps now rows seq = (Some rows', seq') →
  seq' = seq + Z.of_nat (length ps)
  ∧ (∀ p, p ∈ ps → p_email p ∈ acc_email <$> rows')
  ∧ (constraints_hold rows → constraints_hold rows')
  ∧ ∃ added,
      rows' = rows ++ added
      ∧ (length added ≤ length ps)%nat
      ∧ ∀ a, a ∈ added →
             acc_email a ∈ p_email <$> ps ∧ acc_email a ∉ acc_email <$> rows.
Proof.
  induction ps as [|p ps IH]; intros rows seq rows' seq' Hrun; simpl in Hrun.
  - inversion Hrun; subst; clear Hrun. split; [simpl; lia|].
    split; [by intros p Hp; apply elem_of_nil in Hp|]. split; [done|].
    exists []. rewrite app_nil_r. split; [done|]. split; [done|].
    by intros a Ha; apply elem_of_nil in Ha.
  - case_bool_decide as Hmax; [done|].
    case_bool_decide as Hemail.
    + destruct (IH _ _ _ _ Hrun) as (Hseq & Hin & Hcons & added & -> & Hlen & Hadded).
      split; [rewrite Hseq; simpl length; lia|]. split.
      { intros q Hq. apply elem_of_cons in Hq as [->|Hq]; [|by apply Hin].
        rewrite fmap_app. apply elem_of_app. by left. }
      split; [done|]. exists added. split; [done|]. split; [simpl; lia|].
      intros a Ha. destruct (Hadded a Ha) as [Hps Hnew]. split; [|done].
      rewrite fmap_cons. apply elem_of_cons. by right.
    + destruct (bool_decide (seq ∈ acc_id <$> rows)
                || bool_decide (p_username p ∈ acc_username <$> rows)) eqn:Hclash;
        [done|].
      apply orb_false_elim in Hclash as [Hid Hname].
      apply bool_decide_eq_false in Hid. apply bool_decide_eq_false in Hname.
      destruct (IH _ _ _ _ Hrun) as (Hseq & Hin & Hcons & added & -> & Hlen & Hadded).
      split; [rewrite Hseq; simpl length; lia|]. split.
      { intros q Hq. apply elem_of_cons in Hq as [->|Hq]; [|by apply Hin].
        rewrite !fmap_app. apply elem_of_app. left. apply elem_of_app. right.
        simpl. apply list_elem_of_here. }
      split.
      { intros (Hids & Hemails & Hnames). apply Hcons.
        unfold constraints_hold. rewrite !fmap_app. simpl.
        repeat split; by apply NoDup_snoc. }
      exists (new_account seq now p :: added).
      split; [by rewrite <- (assoc_L (++))|]. split; [simpl; lia|].
      intros a Ha. apply elem_of_cons in Ha as [->|Ha].
      * split; [simpl; apply list_elem_of_here | done].
      * destruct (Hadded a Ha) as [Hps Hnew]. split.
        -- rewrite fmap_cons. apply elem_of_cons. by right.
        -- intros Hold. apply Hnew. rewrite fmap_app. apply elem_of_app. by left.
Qed.

(** With every tuple's email stored already, the statement changes no row:
    it goes through if the sequence has a value left for each tuple, and is
    aborted otherwise. *)
Lemma insert_do_nothing_again ps now : ∀ rows seq,
  (∀ p, p ∈ ps → p_email p ∈ acc_email <$> rows) →
  (seq + Z.of_nat (length ps) ≤ serial_max + 1 →
   insert_do_nothing ps now rows seq = (Some rows, seq + Z.of_nat (length ps)))
  ∧ (serial_max + 1 < seq + Z.of_nat (length ps) → ps ≠ [] →
     ∃ seq', insert_do_nothing ps now rows seq = (None, seq')).
Proof.
  induction ps as [|p ps IH]; intros rows seq Hall; simpl insert_do_nothing.
  - split; [intros _; by rewrite Z.add_0_r | done].
  - assert (Hemail : p_email p ∈ acc_email <$> rows)
      by (apply Hall, list_elem_of_here).
    assert (Hrest : ∀ q, q ∈ ps → p_email q ∈ acc_email <$> rows)
      by (intros q Hq; apply Hall; by apply list_elem_of_further).
    destruct (IH rows (seq + 1) Hrest) as [IHok IHfail].
    simpl length. split.
    + intros Hroom. rewrite bool_decide_eq_false_2 by lia.
      rewrite bool_decide_eq_true_2 by done.
      rewrite IHok by lia. f_equal. lia.
    + intros Hfull _. case_bool_decide as Hmax; [by eexists|].
      rewrite bool_decide_eq_true_2 by done.
      apply IHfail; [lia|]. intros ->. simpl in Hfull. lia.
Qed.

(** X10: the schema file can be run again: after a run in which the INSERT
    went through, a second run, at any time, changes no row (the table is
    there, and both seed emails are taken).  The second INSERT goes through
    exactly when the id sequence, which ends at 2147483647, has two values
    left -- it takes one per tuple also for a tuple it then drops -- and the
    sequence then moves on by two; otherwise the INSERT is aborted. *)
Theorem init_script_again now now' db :
  (init_script now db).1 = true →
  stored (init_script now' (Some (init_script now db).2)).2
  = stored (init_script now db).2
  ∧ ((init_script now' (Some (init_script now db).2)).1 = true
     ↔ next_id (init_script now db).2 + 1 ≤ serial_max)
  ∧ ((init_script now' (Some (init_script now db).2)).1 = true →
     next_id (init_script now' (Some (init_script now db).2)).2
     = next_id (init_script now db).2 + 2).
Proof.
  unfold init_script at 1. unfold insert_seed at 1. intros Hok.
  destruct (insert_do_nothing seed_proposals now
              (stored (create_users_if_not_exists db))
              (next_id (create_users_if_not_exists db)))
    as [[rows|] seq] eqn:Hrun; [|done].
  destruct (insert_do_nothing_done _ _ _ _ _ _ Hrun) as (_ & Hin & _).
  destruct (insert_do_nothing_again seed_proposals now' rows seq Hin)
    as [Hroom Hfull].
  unfold init_script, insert_seed. rewrite Hrun.
  cbn [snd create_users_if_not_exists stored next_id].
  change (Z.of_nat (length seed_proposals)) with 2 in *.
  destruct (decide (seq + 2 ≤ serial_max + 1)) as [Hle|Hgt].
  - rewrite (Hroom Hle). cbn [fst snd stored next_id].
    split; [done|]. split; [split; [lia | done] | done].
  - destruct Hfull as [seq' ->]; [lia | done |]. cbn [fst snd stored next_id].
    split; [done|]. split; [split; [done | lia] | done].
Qed.

(** A fresh database, run twice; and a table whose sequence has one value
    left after the first run. *)
Lemma init_script_again_witness :
  (init_script 1000 None).1 = true
  ∧ stored (init_script 2000 (Some (init_script 1000 None).2)).2
    = stored (init_script 1000 None).2
  ∧ (init_script 2000 (Some (init_script 1000 None).2)).1 = true
  ∧ next_id (init_script 2000 (Some (init_script 1000 None).2)).2 = 5.
Proof.
  split; [reflexivity|].
  destruct (init_script_again 1000 2000 None eq_refl) as (Hrows & Hgoes & Hseq).
  split; [exact Hrows|].
  assert (Hok : (init_script 2000 (Some (init_script 1000 None).2)).1 = true)
    by (apply Hgoes; vm_compute; discriminate).
  split; [exact Hok | exact (Hseq Hok)].
Defined.

Example init_script_at_the_end_of_the_sequence :
  (init_script 1000 (Some {| stored := []; next_id := 2147483645 |})).1 = true
  ∧ (init_script 2000
       (Some (init_script 1000
                (Some {| stored := []; next_id := 2147483645 |})).2)).1 = false
  ∧ stored (init_script 2000
              (Some (init_script 1000
                       (Some {| stored := []; next_id := 2147483645 |})).2)).2
    = stored (init_script 1000
                (Some {| stored := []; next_id := 2147483645 |})).2.
Proof. repeat split. Qed.

(** X11: The schema file leaves what is stored alone: on a database that has the
    table, no row is changed or removed; rows are only added, at the end, at
    most two, each with a seed email that was not stored; when the INSERT is
    aborted by a unique violation no row is added at all; and if the three
    uniqueness constraints held before, they hold afterwards. *)
Theorem init_script_keeps_rows now rel :
  (constraints_hold (stored rel) →
   constraints_hold (stored (init_script now (Some rel)).2))
  ∧ ∃ added,
      stored (init_script now (Some rel)).2 = stored rel ++ added
      ∧ (length added ≤ 2)%nat
      ∧ ((init_script now (Some rel)).1 = false → added = [])
      ∧ ∀ a, a ∈ added →
             acc_email a ∈ p_email <$> seed_proposals
             ∧ acc_email a ∉ acc_email <$> stored rel.
Proof.
  unfold init_script, insert_seed. simpl create_users_if_not_exists.
  destruct (insert_do_nothing seed_proposals now (stored rel) (next_id rel))
    as [[rows|] seq] eqn:Hrun.
  - destruct (insert_do_nothing_done _ _ _ _ _ _ Hrun)
      as (_ & _ & Hcons & added & -> & Hlen & Hadded).
    split; [exact Hcons|]. exists added.
    split; [done|]. split; [exact Hlen|]. split; [discriminate | exact Hadded].
  - split; [done|]. exists []. cbn [snd stored]. rewrite app_nil_r.
    split; [done|]. split; [simpl; lia|]. split; [done|].
    by intros a Ha; apply elem_of_nil in Ha.
Qed.

(** A table where [johndoe] is taken under another email: the INSERT is
    aborted and nothing is added, not Jane either. *)
Lemma init_script_keeps_rows_witness :
  (init_script 1000
     (Some {| stored := [new_account 7 500
                           {| p_email := "jd@example.com"; p_username := "johndoe";
                              p_password_hash := "h"; p_first_name := "J";
                              p_last_name := "D" |}];
              next_id := 8 |})).1 = false
  ∧ ∃ added,
      stored (init_script 1000
                (Some {| stored := [new_account 7 500
                                      {| p_email := "jd@example.com";
                                         p_username := "johndoe";
                                         p_password_hash := "h"; p_first_name := "J";
                                         p_last_name := "D" |}];
                         next_id := 8 |})).2
      = [new_account 7 500
           {| p_email := "jd@example.com"; p_username := "johndoe";
              p_password_hash := "h"; p_first_name := "J"; p_last_name := "D" |}]
        ++ added
      ∧ added = [].
Proof.
  split; [reflexivity|].
  destruct (init_script_keeps_rows 1000
              {| stored := [new_account 7 500
                              {| p_email := "jd@example.com"; p_username := "johndoe";
                                 p_password_hash := "h"; p_first_name := "J";
                                 p_last_name := "D" |}];
                 next_id := 8 |})
    as (_ & added & Hstored & _ & Hfail & _).
  exists added. split; [exact Hstored | apply Hfail; reflexivity].
Defined.

(** On a database without the table, the schema file stores the two seed
    rows under the ids 1 and 2: the rows [seed_users] stands for. *)
Example init_script_fresh now :
  (init_script now None).1 = true
  ∧ selected <$> stored (init_script now None).2 = seed_users
  ∧ next_id (init_script now None).2 = 3.
Proof. repeat split. Qed.

(** X12: The integration test passes on any database the schema file has gone
    through, whatever was stored before, provided the query of the request
    goes through: the seed emails are stored, so the table is not empty, and
    every stored row scans. *)
Theorem test_passes_after_init_script now db script tolerated :
  (init_script now db).1 = true →
  next_failure (world_of (init_script now db).2 script tolerated) = None →
  TestUsersEndpointIntegration None user_service
    (world_of (init_script now db).2 script tolerated) = ([], Val tt).
Proof.
  intros Hok Hf. apply test_passes_when_a_row_scans; [exact Hf|].
  unfold init_script, insert_seed in *.
  destruct (insert_do_nothing seed_proposals now
              (stored (create_users_if_not_exists db))
              (next_id (create_users_if_not_exists db)))
    as [[rows|] seq] eqn:Hrun; [|done].
  destruct (insert_do_nothing_done _ _ _ _ _ _ Hrun) as (_ & Hin & _).
  assert (Hjohn : "john.doe@example.com" ∈ acc_email <$> rows)
    by (apply (Hin _ (list_elem_of_here _ _))).
  simpl. destruct rows as [|a rows]; [by apply elem_of_nil in Hjohn|].
  done.
Qed.

Lemma test_passes_after_init_script_witness :
  (init_script 1000 None).1 = true
  ∧ next_failure (world_of (init_script 1000 None).2 [] false) = None
  ∧ TestUsersEndpointIntegration None user_service
      (world_of (init_script 1000 None).2 [] false) = ([], Val tt).
Proof.
  split; [reflexivity|]. split; [reflexivity|].
  apply (test_passes_after_init_script 1000 None [] false); reflexivity.
Defined.
